(** * DiffuseVAE: the reconstruction driver [eval/ddpm/generate_recons.py]

    A shallow embedding of the orchestration script: the string helper
    [__parse_str], the device set-up that fills the [test_kwargs] and
    [loader_kws] dictionaries, the noise and paired datasets, the batch
    loader, the relaxed checkpoint load and the construction of the EMA
    decoder.  Python values are an inductive type, dictionaries are finite
    maps keyed by strings, exceptions are an error monad, and the objects the
    script mutates live in an explicit heap. *)

From Stdlib Require Import ZArith Lia Ascii.
From stdpp Require Import gmap strings list fin_maps.

Local Open Scope Z_scope.

(** ** Python values, exceptions and the built-ins the script calls *)

Module Py.

Inductive exn : Type :=
| AttributeError
| TypeError
| ValueError
| AssertionError
| RuntimeError
| IndexError.

Inductive result (A : Type) : Type :=
| Ok (a : A)
| Raise (e : exn).
Arguments Ok {A} a.
Arguments Raise {A} e.

Definition bind {A B : Type} (r : result A) (k : A -> result B) : result B :=
  match r with
  | Ok a => k a
  | Raise e => Raise e
  end.

Definition is_Ok {A : Type} (r : result A) : Prop := exists a, r = Ok a.

#[warnings="-register-all"]
Inductive obj : Type :=
| PyNone
| PyBool (b : bool)
| PyInt (z : Z)
| PyStr (s : string)
| PyList (l : list obj)
| PyTuple (l : list obj)
| PyObject (cls : string).

(** [x is not None] *)
Definition is_not_None (x : obj) : bool :=
  match x with
  | PyNone => false
  | _ => true
  end.

(** [x != ""]: a value that is not a string is never equal to a string. *)
Definition ne_empty_str (x : obj) : bool :=
  match x with
  | PyStr s => negb (String.eqb s "")
  | _ => true
  end.

(** [str.split(sep)] for a one-character separator: the pieces between the
    separators, empty pieces included; the empty string gives [[""]]. *)
Fixpoint str_split (sep : ascii) (s : string) : list string :=
  match s with
  | EmptyString => [EmptyString]
  | String c s' =>
      if Ascii.eqb c sep then EmptyString :: str_split sep s'
      else match str_split sep s' with
           | tok :: rest => String c tok :: rest
           | [] => [String c EmptyString]
           end
  end.

(** [x.split(",")]: only strings have the method. *)
Definition split_comma (x : obj) : result (list obj) :=
  match x with
  | PyStr s => Ok (PyStr <$> str_split "," s)
  | _ => Raise AttributeError
  end.

(** *** [int(s)] on a string of ASCII characters, base 10

    Surrounding white space is stripped, one sign is allowed, then decimal
    digits follow, single underscores allowed between digits.  Decimal
    digits and white space outside ASCII, and the interpreter's cap on the
    number of digits, are left out. *)

Definition is_space (c : ascii) : bool :=
  let n := nat_of_ascii c in
  (((9 <=? n) && (n <=? 13)) || (n =? 32))%nat.

Definition is_digit (c : ascii) : bool :=
  let n := nat_of_ascii c in
  ((48 <=? n) && (n <=? 57))%nat.

Definition digit_val (c : ascii) : Z := Z.of_nat (nat_of_ascii c - 48).

Fixpoint lstrip (cs : list ascii) : list ascii :=
  match cs with
  | c :: cs' => if is_space c then lstrip cs' else cs
  | [] => []
  end.

Definition strip (cs : list ascii) : list ascii :=
  rev (lstrip (rev (lstrip cs))).

Fixpoint digits (acc : Z) (after_digit : bool) (cs : list ascii) : option Z :=
  match cs with
  | [] => if after_digit then Some acc else None
  | c :: cs' =>
      if is_digit c then digits (10 * acc + digit_val c) true cs'
      else if Ascii.eqb c "_" then
             if after_digit then digits acc false cs' else None
           else None
  end.

Definition int_of_chars (cs : list ascii) : option Z :=
  match strip cs with
  | c :: cs' =>
      if Ascii.eqb c "-" then Z.opp <$> digits 0 false cs'
      else if Ascii.eqb c "+" then digits 0 false cs'
      else digits 0 false (c :: cs')
  | [] => None
  end.

(** [int(x)] *)
Definition int (x : obj) : result Z :=
  match x with
  | PyStr s =>
      match int_of_chars (String.list_ascii_of_string s) with
      | Some z => Ok z
      | None => Raise ValueError
      end
  | PyInt z => Ok z
  | PyBool b => Ok (if b then 1 else 0)
  | _ => Raise TypeError
  end.

(** [s.startswith(prefix)] *)
Definition startswith (prefix s : string) : bool := String.prefix prefix s.

End Py.

Import Py.

#[global] Instance result_ret : MRet result := fun _ a => Ok a.
#[global] Instance result_bind : MBind result := fun _ _ k r => Py.bind r k.

(** ** The PyTorch operations the script calls

    Floating-point numbers stay abstract ([scalar]); the pseudo-random
    generator is explicit state: [normal] draws one standard-normal number
    and returns the advanced generator, [manual_seed] is the state a seed
    gives. *)

Module Torch.

Definition numel (size : list Z) : Z := foldr Z.mul 1 size.

Section Tensors.
Context {scalar : Type}.

Record Tensor : Type := mkTensor { shape : list Z; data : list scalar }.

(** [t.size(0)] *)
Definition size0 (t : Tensor) : result Z :=
  match shape t with
  | d :: _ => Ok d
  | [] => Raise TypeError
  end.

(** [t[i]] for [0 <= i < t.size(0)]: the [i]-th slice along the first
    dimension. *)
Definition select (t : Tensor) (i : nat) : Tensor :=
  let inner := tail (shape t) in
  let stride := Z.to_nat (numel inner) in
  mkTensor inner (take stride (drop (i * stride) (data t))).

Section Random.
Context {generator : Type}.
Variable normal : generator -> scalar * generator.

Fixpoint draws (n : nat) (g : generator) : list scalar * generator :=
  match n with
  | O => ([], g)
  | S n' =>
      let '(x, g1) := normal g in
      let '(xs, g2) := draws n' g1 in
      (x :: xs, g2)
  end.

(** [torch.randn] of the dimensions [size] on the global generator [g]: a
    negative dimension is refused.  What the allocator can serve is not
    bounded here. *)
Definition randn (size : list Z) (g : generator) : result (Tensor * generator) :=
  if forallb (fun d => 0 <=? d) size then
    let '(xs, g') := draws (Z.to_nat (numel size)) g in
    Ok (mkTensor size xs, g')
  else Raise RuntimeError.
End Random.

(** [TensorDataset] of some tensors: every tensor must have the same first
    dimension; item [i] is the tuple of the tensors' [i]-th slices.  A
    map-style dataset is kept as the list of its items in index order:
    [len] is the length, [dataset[i]] the lookup. *)
Definition TensorDataset (tensors : list Tensor) : result (list (list Tensor)) :=
  match tensors with
  | [] => Raise TypeError
  | t0 :: _ =>
      n ← size0 t0;
      if forallb (fun t => match size0 t with
                           | Ok m => m =? n
                           | Raise _ => false
                           end) tensors
      then Ok ((fun i => (fun t => select t i) <$> tensors) <$> seq 0 (Z.to_nat n))
      else Raise AssertionError
  end.

(** *** [Module.load_state_dict(state_dict, strict)]

    A module's parameters and a snapshot are maps from parameter names
    to tensors.  For a name present on both sides the loader first adapts
    the snapshot's tensor: a one-dimensional tensor offered to a
    zero-dimensional parameter is replaced by its first element, and
    indexing an empty one raises [IndexError] on the spot.  A name whose
    adapted tensor has another shape than the parameter is always an
    error; a name missing from the snapshot, or one the module does not
    have, is an error only when [strict] is set; these errors are collected
    and raised together at the end.  Without an error the parameters
    present in the snapshot are overwritten and the others keep their
    values. *)
Definition first_element (t : Tensor) : Tensor := mkTensor [] (take 1 (data t)).

(** The tensor copied into the parameter [own] for the snapshot entry
    [snapshot]. *)
Definition offered (own snapshot : Tensor) : Tensor :=
  match shape own, shape snapshot with
  | [], [_] => first_element snapshot
  | _, _ => snapshot
  end.

Definition index_clash (own snapshot : option Tensor) : option unit :=
  match own, snapshot with
  | Some t, Some t' =>
      match shape t, shape t' with
      | [], [n] => if n <=? 0 then Some () else None
      | _, _ => None
      end
  | _, _ => None
  end.

Definition shape_clash (own snapshot : option Tensor) : option unit :=
  match own, snapshot with
  | Some t, Some t' =>
      if decide (shape t = shape (offered t t')) then None else Some ()
  | _, _ => None
  end.

Definition restore (own snapshot : option Tensor) : option Tensor :=
  match own, snapshot with
  | Some t, Some t' => Some (offered t t')
  | Some t, None => Some t
  | None, _ => None
  end.

Definition index_errors (own snapshot : gmap string Tensor) : gset string :=
  dom (merge index_clash own snapshot).

Definition size_mismatches (own snapshot : gmap string Tensor) : gset string :=
  dom (merge shape_clash own snapshot).

Definition missing_keys (own snapshot : gmap string Tensor) : gset string :=
  dom own ∖ dom snapshot.

Definition unexpected_keys (own snapshot : gmap string Tensor) : gset string :=
  dom snapshot ∖ dom own.

Definition load_state_dict (own snapshot : gmap string Tensor) (strict : bool)
  : result (gmap string Tensor) :=
  if decide (index_errors own snapshot = ∅) then
    if decide (size_mismatches own snapshot = ∅) then
      if strict
         && negb (bool_decide (missing_keys own snapshot = ∅
                               ∧ unexpected_keys own snapshot = ∅))
      then Raise RuntimeError
      else Ok (merge restore own snapshot)
    else Raise RuntimeError
  else Raise IndexError.

(** [Cls.load_from_checkpoint] with a [strict] flag and keyword arguments: the model is
    built from the keyword arguments ([constructed] holds its
    parameters), then the snapshot stored in the checkpoint is loaded
    into it. *)
Definition load_from_checkpoint (checkpoint constructed : gmap string Tensor)
    (strict : bool) : result (gmap string Tensor) :=
  load_state_dict constructed checkpoint strict.

End Tensors.
Arguments Tensor scalar : clear implicits.

(** *** The batch loader

    [DataLoader(dataset, batch_size, shuffle, drop_last, num_workers,
    persistent_workers)].  With [shuffle=False] the sampler is sequential;
    with [shuffle=True] it is a permutation chosen by the generator, kept
    here as the argument [perm]. *)

Definition sampler (shuffle : bool) (perm : list nat) (n : nat) : list nat :=
  if shuffle then perm else seq 0 n.

(** The loop of the batch sampler: indices are appended to [batch], a full
    batch is emitted, and what is left at the end is emitted unless
    [drop_last] is set. *)
Fixpoint batch_sampler (batch_size : nat) (drop_last : bool)
    (batch : list nat) (indices : list nat) : list (list nat) :=
  match indices with
  | [] => if (0 <? length batch)%nat && negb drop_last then [batch] else []
  | idx :: rest =>
      let batch' := batch ++ [idx] in
      if (length batch' =? batch_size)%nat
      then batch' :: batch_sampler batch_size drop_last [] rest
      else batch_sampler batch_size drop_last batch' rest
  end.

Record DataLoader (A : Type) : Type := mkDataLoader {
  dl_dataset : list A;
  dl_batch_size : nat;
  dl_shuffle : bool;
  dl_drop_last : bool;
  dl_pin_memory : bool;
  dl_num_workers : Z;
  dl_persistent_workers : bool;
}.
Arguments mkDataLoader {A}.
Arguments dl_dataset {A}.
Arguments dl_batch_size {A}.
Arguments dl_shuffle {A}.
Arguments dl_drop_last {A}.
Arguments dl_pin_memory {A}.
Arguments dl_num_workers {A}.
Arguments dl_persistent_workers {A}.

(** The constructor's checks: a non-negative number of workers,
    persistent workers only with workers, and a positive batch size. *)
Definition new_DataLoader {A : Type} (dataset : list A) (batch_size : Z)
    (drop_last pin_memory shuffle : bool) (num_workers : Z)
    (persistent_workers : bool) : result (DataLoader A) :=
  if num_workers <? 0 then Raise ValueError
  else if persistent_workers && (num_workers =? 0) then Raise ValueError
  else if batch_size <=? 0 then Raise ValueError
  else Ok (mkDataLoader dataset (Z.to_nat batch_size) shuffle drop_last
             pin_memory num_workers persistent_workers).

(** The index batches one pass over the loader yields, in order. *)
Definition index_batches {A : Type} (perm : list nat) (dl : DataLoader A)
  : list (list nat) :=
  batch_sampler (dl_batch_size dl) (dl_drop_last dl) []
    (sampler (dl_shuffle dl) perm (length (dl_dataset dl))).

(** One pass over the loader: each index batch is fetched from the
    dataset, [[dataset[i] for i in batch]]; the sampler only gives indices
    below the dataset's length. *)
Definition fetch {A : Type} (dataset : list A) (batch : list nat) : list A :=
  omap (fun i => dataset !! i) batch.

Definition batches {A : Type} (perm : list nat) (dl : DataLoader A)
  : list (list A) :=
  fetch (dl_dataset dl) <$> index_batches perm dl.

End Torch.

Import Torch.

(** ** Objects with identity: modules, their parameters, [copy.deepcopy]

    A module object holds its [training] flag and, in order, the names of
    its parameters with the locations of the tensor objects; tensors and
    modules live in one heap, so two names may share one tensor. *)

Module Objects.

Definition loc := positive.

Section Heap.
Context {scalar : Type}.

Inductive cell : Type :=
| TensorCell (t : Tensor scalar)
| ModuleCell (training : bool) (params : list (string * loc)).

(** The first entry of a parameter list under a name. *)
Fixpoint param_loc (params : list (string * loc)) (name : string) : option loc :=
  match params with
  | [] => None
  | (k, l) :: rest => if String.eqb k name then Some l else param_loc rest name
  end.

(** The value of the parameter [name] of the module at [m]. *)
Definition param_value (h : gmap loc cell) (m : loc) (name : string)
  : option (Tensor scalar) :=
  match h !! m with
  | Some (ModuleCell _ params) =>
      match param_loc params name with
      | Some l => match h !! l with
                  | Some (TensorCell t) => Some t
                  | _ => None
                  end
      | None => None
      end
  | _ => None
  end.

(** An in-place write to the parameter [name] of the module at [m]. *)
Definition set_param (h : gmap loc cell) (m : loc) (name : string)
    (v : Tensor scalar) : gmap loc cell :=
  match h !! m with
  | Some (ModuleCell _ params) =>
      match param_loc params name with
      | Some l => <[l := TensorCell v]> h
      | None => h
      end
  | _ => h
  end.

(** [m.eval()] *)
Definition eval (m : loc) (h : gmap loc cell) : result (gmap loc cell) :=
  match h !! m with
  | Some (ModuleCell _ params) => Ok (<[m := ModuleCell false params]> h)
  | _ => Raise AttributeError
  end.

(** The copy of a parameter list under a memo table: an object already
    copied is reused, any other is cloned into a fresh location and
    entered in the table. *)
Fixpoint deepcopy_params (params : list (string * loc)) (memo : gmap loc loc)
    (h : gmap loc cell) : result (list (string * loc) * gmap loc loc * gmap loc cell) :=
  match params with
  | [] => Ok ([], memo, h)
  | (name, l) :: rest =>
      match memo !! l with
      | Some l' =>
          '(rest', memo', h') ← deepcopy_params rest memo h;
          mret ((name, l') :: rest', memo', h')
      | None =>
          match h !! l with
          | Some c =>
              let l' := fresh (dom h) in
              '(rest', memo', h') ←
                deepcopy_params rest (<[l := l']> memo) (<[l' := c]> h);
              mret ((name, l') :: rest', memo', h')
          | None => Raise RuntimeError
          end
      end
  end.

(** [copy.deepcopy(m)] for a module object. *)
Definition deepcopy (m : loc) (h : gmap loc cell) : result (loc * gmap loc cell) :=
  match h !! m with
  | Some (ModuleCell training params) =>
      '(params', _, h') ← deepcopy_params params ∅ h;
      let m' := fresh (dom h') in
      mret (m', <[m' := ModuleCell training params']> h')
  | _ => Raise TypeError
  end.

End Heap.
Arguments cell scalar : clear implicits.

End Objects.

Import Objects.

(** ** Collaborators of the script that live in other files of the repository *)

Module Collaborators.

(** Modelled from the spec: [ZipDataset] ([datasets/latent.py]) is not
    among the source files.  "Zip the two datasets positionally: item i of
    the paired dataset is (reconstruction_source[i], noise[i])", and "the
    zipped length is the shorter of the two". *)
Definition ZipDataset {A B : Type} (recons_dataset : list A)
    (latent_dataset : list B) : list (A * B) :=
  zip recons_dataset latent_dataset.

(** Modelled from the spec: [ReconstructionDataset] ([datasets/recons.py])
    is not among the source files.  The images under the root directory
    ([images], already normalised) are "truncate[d] down to exactly
    n_samples items"; a directory with fewer images gives them all. *)
Definition ReconstructionDataset {A : Type} (images : list A)
    (subsample_size : Z) : list A :=
  take (Z.to_nat subsample_size) images.

(** Modelled from the spec: [ImageWriter] ([models/callbacks.py]) is not
    among the source files.  It "is invoked once per produced batch with
    that batch's outputs" and persists them "using a stable,
    index-derivable naming scheme so that output order matches input
    order": the files written so far are numbered from 0 in the order of
    arrival. *)
Record ImageWriter (out : Type) : Type := mkImageWriter {
  iw_output_dir : string;
  iw_write_interval : string;
  iw_n_steps : Z;
  iw_eval_mode : string;
  iw_conditional : bool;
  iw_sample_prefix : string;
  iw_save_mode : string;
  iw_save_vae : bool;
  iw_invocations : nat;
  iw_files : list (nat * out);
}.
Arguments mkImageWriter {out}.
Arguments iw_output_dir {out}.
Arguments iw_write_interval {out}.
Arguments iw_n_steps {out}.
Arguments iw_eval_mode {out}.
Arguments iw_conditional {out}.
Arguments iw_sample_prefix {out}.
Arguments iw_save_mode {out}.
Arguments iw_save_vae {out}.
Arguments iw_invocations {out}.
Arguments iw_files {out}.

Definition write_on_batch_end {out : Type} (w : ImageWriter out)
    (outputs : list out) : ImageWriter out :=
  let first := length (iw_files w) in
  mkImageWriter (iw_output_dir w) (iw_write_interval w) (iw_n_steps w)
    (iw_eval_mode w) (iw_conditional w) (iw_sample_prefix w) (iw_save_mode w)
    (iw_save_vae w)
    (S (iw_invocations w))
    (iw_files w ++ zip (seq first (length outputs)) outputs).

(** Modelled from the spec: the execution driver ([Trainer.predict]) is
    not among the source files.  "Given a composite inference unit and a
    batch loader, iterate every batch exactly once, invoke the inference
    unit's predict operation per batch, and invoke the registered Output
    Writer Callback with the result." *)
Definition predict {A out : Type} (predict_step : list A -> nat -> list out)
    (loader : list (list A)) (callback : ImageWriter out) : ImageWriter out :=
  foldl (fun w '(batch_idx, batch) => write_on_batch_end w (predict_step batch batch_idx))
    callback (imap pair loader).

End Collaborators.

Import Collaborators.

(** ** The script *)

Module GenerateRecons.

(** The list comprehension of [__parse_str]:
    [[int(s) for s in split if s != "" and s is not None]]. *)
Fixpoint parse_tokens (split : list obj) : result (list Z) :=
  match split with
  | [] => Ok []
  | s :: rest =>
      if ne_empty_str s && is_not_None s then
        z ← int s;
        zs ← parse_tokens rest;
        mret (z :: zs)
      else parse_tokens rest
  end.

Definition __parse_str (s : obj) : result (list Z) :=
  split ← split_comma s;
  parse_tokens split.

(** The tokens of a string, and those of them that are not empty. *)
Definition tokens (s : string) : list string := str_split "," s.

Definition nonempty_tokens (s : string) : list string :=
  filter (fun t => t <> EmptyString) (tokens s).

(** The fields of the configuration the script reads (the floating-point
    ones, [dropout], [beta1] and [beta2], are passed through untouched and
    left out). *)
Record Config : Type := mkConfig {
  seed : Z;
  batch_size : Z;
  n_steps : Z;
  n_samples : Z;
  image_size : Z;
  n_channels : Z;
  dim : Z;
  n_residual : Z;
  attn_resolutions : obj;
  dim_mults : obj;
  n_heads : Z;
  n_timesteps : Z;
  device : string;
  workers : Z;
  root : string;
  norm : bool;
  save_path : string;
  sample_prefix : string;
  save_mode : string;
  save_vae : bool;
}.

(** The keyword arguments of [SuperResModel(...)]. *)
Record SuperResModelArgs : Type := mkSuperResModelArgs {
  in_channels : Z;
  model_channels : Z;
  out_channels : Z;
  num_res_blocks : Z;
  attention_resolutions : list Z;
  channel_mult : list Z;
  use_checkpoint : bool;
  num_heads : Z;
}.

Definition decoder_args (config : Config) : result SuperResModelArgs :=
  attn_resolutions ← __parse_str (attn_resolutions config);
  dim_mults ← __parse_str (dim_mults config);
  mret (mkSuperResModelArgs (n_channels config) (dim config) 3
          (n_residual config) attn_resolutions dim_mults false
          (n_heads config)).

(** The dimensions handed to [torch.randn]. *)
Definition latent_size (config : Config) : list Z :=
  [n_samples config; 3; image_size config; image_size config].

(** A configuration with another value in the field [n_channels]. *)
Definition with_n_channels (c : Z) (config : Config) : Config :=
  mkConfig (seed config) (batch_size config) (n_steps config) (n_samples config)
    (image_size config) c (dim config) (n_residual config)
    (attn_resolutions config) (dim_mults config) (n_heads config)
    (n_timesteps config) (device config) (workers config) (root config)
    (norm config) (save_path config) (sample_prefix config) (save_mode config)
    (save_vae config).

(** [ema_decoder = copy.deepcopy(decoder); decoder.eval();
    ema_decoder.eval()] on the heap holding the freshly built decoder. *)
Definition make_ema_decoder {scalar : Type} (decoder : loc)
    (h : gmap loc (cell scalar)) : result (loc * gmap loc (cell scalar)) :=
  '(ema_decoder, h1) ← deepcopy decoder h;
  h2 ← eval decoder h1;
  h3 ← eval ema_decoder h2;
  mret (ema_decoder, h3).

(** [_, devs = value]: unpacking needs exactly two items. *)
Definition unpack2 (value : obj) : result (obj * obj) :=
  match value with
  | PyTuple [a; b] | PyList [a; b] => Ok (a, b)
  | PyStr (String a (String b EmptyString)) =>
      Ok (PyStr (String a EmptyString), PyStr (String b EmptyString))
  | PyTuple _ | PyList _ | PyStr _ => Raise ValueError
  | _ => Raise TypeError
  end.

(** A key of the wrapper's parameters that belongs to the VAE: the wrapper
    keeps the VAE under its attribute [vae]. *)
Definition is_vae_key (k : string) : bool := startswith "vae." k.

(** [loader_kws.get("persistent_workers", False)], the default of the
    loader's keyword. *)
Definition persistent_workers_kw (loader_kws : gmap string obj) : bool :=
  match loader_kws !! "persistent_workers" with
  | Some (PyBool b) => b
  | _ => false
  end.

Section Script.
Context {scalar generator image out : Type}.
(** One standard-normal draw, and the generator state a seed gives. *)
Variable normal : generator -> scalar * generator.
Variable manual_seed : Z -> generator.
(** The seed the library picks at random, anew in every process, when the
    configured seed is out of bounds. *)
Variable random_seed : Z.
(** What building the networks (their random initialisation) does to the
    global generator between seeding and the draw of the noise. *)
Variable construct_models : Config -> generator -> generator.
(** [util.configure_device], which is not among the source files. *)
Variable configure_device : string -> result obj.
(** The permutation a shuffling sampler would draw. *)
Variable perm : list nat.
(** The wrapper's prediction for a batch, given its restored parameters. *)
Variable predict_step :
  gmap string (Tensor scalar) -> list (image * list (Tensor scalar)) -> nat -> list out.

(** [seed_everything(seed)] replaces the global generator.  A seed outside
    the bounds of an unsigned 32-bit number is not used: one picked at
    random takes its place. *)
Definition max_seed_value : Z := 4294967295.
Definition min_seed_value : Z := 0.

Definition effective_seed (s : Z) : Z :=
  if (min_seed_value <=? s) && (s <=? max_seed_value) then s else random_seed.

Definition seed_everything (s : Z) (g : generator) : generator :=
  manual_seed (effective_seed s).

(** [VAE.load_from_checkpoint(path, ...)]: [strict] keeps its default. *)
Definition load_vae (checkpoint constructed : gmap string (Tensor scalar))
  : result (gmap string (Tensor scalar)) :=
  load_from_checkpoint checkpoint constructed true.

(** [DDPMWrapper.load_from_checkpoint(path, ..., strict=False, ...)] *)
Definition load_ddpm_wrapper (checkpoint constructed : gmap string (Tensor scalar))
  : result (gmap string (Tensor scalar)) :=
  load_from_checkpoint checkpoint constructed false.

(** [TensorDataset(torch.randn(n_samples, 3, image_size, image_size))],
    drawn after [seed_everything] and the construction of the models. *)
Definition ddpm_latent_dataset (config : Config) (g0 : generator)
  : result (list (list (Tensor scalar))) :=
  let g := construct_models config (seed_everything (seed config) g0) in
  '(noise, _) ← randn normal (latent_size config) g;
  TensorDataset [noise].

(** The generator state at the draw of the noise, and the numbers drawn
    there. *)
Definition noise_generator (config : Config) : generator :=
  construct_models config (manual_seed (effective_seed (seed config))).

Definition noise_stream (config : Config) : list scalar :=
  (draws normal (Z.to_nat (numel (latent_size config)))
     (noise_generator config)).1.

Definition pred_dataset (config : Config) (images : list image) (g0 : generator)
  : result (list (image * list (Tensor scalar))) :=
  let recons_dataset := ReconstructionDataset images (n_samples config) in
  ddpm_latent_dataset ← ddpm_latent_dataset config g0;
  mret (ZipDataset recons_dataset ddpm_latent_dataset).

(** The device block: [test_kwargs] and [loader_kws] after it. *)
Definition setup_devices (device : string)
  : result (gmap string obj * gmap string obj) :=
  let test_kwargs : gmap string obj := ∅ in
  let loader_kws : gmap string obj := ∅ in
  if startswith "gpu" device then
    r ← configure_device device;
    '(_, devs) ← unpack2 r;
    mret (<["gpus" := devs]> test_kwargs,
          <["persistent_workers" := PyBool true]> loader_kws)
  else if String.eqb device "tpu" then
    mret (<["tpu_cores" := PyInt 8]> test_kwargs, loader_kws)
  else mret (test_kwargs, loader_kws).

Definition val_loader {A : Type} (config : Config) (loader_kws : gmap string obj)
    (dataset : list A) : result (DataLoader A) :=
  new_DataLoader dataset (batch_size config) false true false (workers config)
    (persistent_workers_kw loader_kws).

Definition write_callback (config : Config) : ImageWriter out :=
  mkImageWriter (save_path config) "batch" (n_steps config) "recons" true
    (sample_prefix config) (save_mode config) (save_vae config) 0 [].

(** The whole run, from the seed to [trainer.predict]: the keyword
    arguments the trainer is built with and the state of the writer at the
    end.  [seed_everything] is applied inside [pred_dataset], where the
    generator is used; the decoder objects of lines 46 to 73 are built on
    the heap by [make_ema_decoder] and enter here as the parameters
    [wrapper_constructed] of the wrapper that holds them.  Failures inside
    the trainer's constructor, inside [predict] and inside the constructors
    of the collaborators are not part of this definition: [Ok] says that
    the steps of the script itself went through. *)
Definition generate_recons (config : Config)
    (vae_checkpoint vae_constructed : gmap string (Tensor scalar))
    (ddpm_checkpoint wrapper_constructed : gmap string (Tensor scalar))
    (images : list image) (g0 : generator)
  : result (gmap string obj * ImageWriter out) :=
  _ ← load_vae vae_checkpoint vae_constructed;
  _ ← decoder_args config;
  ddpm_wrapper ← load_ddpm_wrapper ddpm_checkpoint wrapper_constructed;
  pred_dataset ← pred_dataset config images g0;
  '(test_kwargs, loader_kws) ← setup_devices (device config);
  val_loader ← val_loader config loader_kws pred_dataset;
  let write_callback := write_callback config in
  let test_kwargs := <["callbacks" := PyList [PyObject "ImageWriter"]]> test_kwargs in
  let test_kwargs := <["default_root_dir" := PyStr (save_path config)]> test_kwargs in
  mret (test_kwargs,
        predict (predict_step ddpm_wrapper) (batches perm val_loader) write_callback).

End Script.

(** Modelled from the spec: [configure_device] ([util.py]) is not among
    the source files.  For a specifier that "starts with gpu" it "parse[s]
    trailing accelerator indices", so that "gpu:0,1" gives the ids [0, 1];
    it returns the specifier with the ids. *)
Definition configure_device_spec (device : string) : result obj :=
  ids ← __parse_str (PyStr (default EmptyString (last (str_split ":" device))));
  mret (PyTuple [PyStr device; PyList (PyInt <$> ids)]).

End GenerateRecons.

Import GenerateRecons.

(** ** Concrete inputs *)

Module Examples.

Definition example_config : Config :=
  mkConfig 0 4 1000 10 2 1 128 2 (PyStr "16,") (PyStr "1,2,2,2") 8 1000
    "cpu" 0 "data" true "out" "recons" "image" false.

(** A generator whose state is a counter: a draw returns the counter. *)
Definition counter_normal (g : nat) : Z * nat := (Z.of_nat g, S g).
Definition counter_seed (s : Z) : nat := Z.to_nat s.
Definition no_construction (_ : Config) (g : nat) : nat := g.

(** An inference unit that returns the image of each sample. *)
Definition echo_step (_ : gmap string (Tensor Z))
    (batch : list (nat * list (Tensor Z))) (_ : nat) : list nat :=
  batch.*1.

(** A wrapper with one parameter in each diffusion network and one in the
    VAE, and a snapshot that only has the target network's. *)
Definition wrapper_constructed : gmap string (Tensor Z) :=
  {[ "online_network.decoder.weight" := mkTensor [2] [0; 0];
     "target_network.decoder.weight" := mkTensor [2] [0; 0];
     "vae.enc.weight" := mkTensor [1] [0] ]}.

Definition snapshot_without_online : gmap string (Tensor Z) :=
  {[ "target_network.decoder.weight" := mkTensor [2] [5; 6] ]}.

(** A decoder with three parameter names, two of them sharing a tensor. *)
Definition decoder_heap : gmap loc (cell Z) :=
  {[ 1%positive := TensorCell (mkTensor [2] [1; 2]);
     2%positive := TensorCell (mkTensor [1] [3]);
     3%positive := ModuleCell true
                     [("weight"%string, 1%positive); ("bias"%string, 2%positive);
                      ("tied"%string, 1%positive)] ]}.

(** A configuration asking for two GPUs and no loader workers. *)
Definition gpu_config : Config :=
  mkConfig 0 4 1000 10 2 1 128 2 (PyStr "16,") (PyStr "1,2,2,2") 8 1000
    "gpu:0,1" 0 "data" true "out" "recons" "image" false.

(** A configuration with a negative sample count. *)
Definition negative_config : Config :=
  mkConfig 0 4 1000 (-1) 2 1 128 2 (PyStr "16,") (PyStr "1,2,2,2") 8 1000
    "cpu" 0 "data" true "out" "recons" "image" false.

(** A full snapshot of the example wrapper, and the tensor of a key the
    wrapper does not have. *)
Definition full_snapshot : gmap string (Tensor Z) :=
  {[ "online_network.decoder.weight" := mkTensor [2] [1; 2];
     "target_network.decoder.weight" := mkTensor [2] [3; 4];
     "vae.enc.weight" := mkTensor [1] [5] ]}.

Definition stray_tensor : Tensor Z := mkTensor [4] [0; 0; 0; 0].


(** A VAE with one parameter, and a snapshot of it. *)
Definition vae_constructed : gmap string (Tensor Z) :=
  {[ "enc.weight" := mkTensor [2] [0; 0] ]}.

Definition vae_snapshot : gmap string (Tensor Z) :=
  {[ "enc.weight" := mkTensor [2] [5; 6] ]}.

End Examples.

Import Examples.

(** ** Notions used to state further properties *)

Module Notions.

(** A string made of white space only (the empty string included). *)
Definition all_space (s : string) : bool :=
  forallb is_space (String.list_ascii_of_string s).

End Notions.

Import Notions.

(** * Properties *)

(** ** The configuration parser *)

Section ParseStr.

Lemma ne_empty_str_PyStr (t : string) :
  ne_empty_str (PyStr t) && is_not_None (PyStr t) = bool_decide (t <> EmptyString).
Proof.
  simpl. rewrite andb_true_r.
  destruct (String.eqb_spec t EmptyString) as [Heq|Hne];
    case_bool_decide; simpl; congruence.
Qed.

Lemma parse_tokens_valid (toks : list string) :
  Forall (fun t => is_Ok (int (PyStr t))) (filter (fun t => t <> EmptyString) toks) ->
  exists zs,
    parse_tokens (PyStr <$> toks) = Ok zs
    /\ Forall2 (fun t z => int (PyStr t) = Ok z)
         (filter (fun t => t <> EmptyString) toks) zs.
Proof.
  induction toks as [|t toks IH]; intros Hvalid.
  - exists []. split; [reflexivity | constructor].
  - rewrite fmap_cons. cbn [parse_tokens].
    rewrite ne_empty_str_PyStr. rewrite filter_cons in Hvalid |- *.
    destruct (decide (t <> EmptyString)) as [Hne|Hempty].
    + rewrite bool_decide_eq_true_2 by done.
      apply Forall_cons in Hvalid as [[z Hz] Hrest].
      destruct (IH Hrest) as (zs & Hzs & Hall).
      exists (z :: zs). rewrite Hz, Hzs. split; [reflexivity |].
      by constructor.
    + rewrite bool_decide_eq_false_2 by done. by apply IH.
Qed.

(** C4: on a string all of whose non-empty tokens [int] accepts,
    [__parse_str] returns, in order, the integers of the non-empty tokens,
    as many as there are such tokens, the empty tokens being dropped; and
    "1,,3," gives [1, 3]. *)
Theorem parse_str_valid (s : string) :
  Forall (fun t => is_Ok (int (PyStr t))) (nonempty_tokens s) ->
  (exists zs,
      __parse_str (PyStr s) = Ok zs
      /\ Forall2 (fun t z => int (PyStr t) = Ok z) (nonempty_tokens s) zs
      /\ length zs = length (nonempty_tokens s))
  /\ __parse_str (PyStr "1,,3,") = Ok [1; 3].
Proof.
  intros Hvalid. split; [| reflexivity].
  destruct (parse_tokens_valid (tokens s) Hvalid) as (zs & Hzs & Hall).
  exists zs. split; [exact Hzs |]. split; [exact Hall |].
  symmetry. by eapply Forall2_length.
Qed.

Lemma parse_str_valid_witness :
  let s := ",10,,-3, +7 ,1_000,"%string in
  Forall (fun t => is_Ok (int (PyStr t))) (nonempty_tokens s)
  /\ ((exists zs,
          __parse_str (PyStr s) = Ok zs
          /\ Forall2 (fun t z => int (PyStr t) = Ok z) (nonempty_tokens s) zs
          /\ length zs = length (nonempty_tokens s))
      /\ __parse_str (PyStr "1,,3,") = Ok [1; 3]).
Proof.
  assert (Hvalid : Forall (fun t => is_Ok (int (PyStr t)))
                     (nonempty_tokens ",10,,-3, +7 ,1_000,")).
  { repeat constructor; eexists; reflexivity. }
  split; [exact Hvalid | exact (parse_str_valid _ Hvalid)].
Defined.

(** C5, as the code has it: the empty string parses to the empty
    sequence; [None] has no [split] method, so the call raises
    [AttributeError] instead of returning. *)
Theorem parse_str_empty_and_None :
  __parse_str (PyStr "") = Ok [] /\ __parse_str PyNone = Raise AttributeError.
Proof. split; reflexivity. Qed.

Lemma parse_str_None_not_empty : __parse_str PyNone <> Ok [].
Proof. discriminate. Qed.

End ParseStr.

(** ** The device block *)

Section Devices.
Variable configure_device : string -> result obj.

(** C7: the device block maps the specifier to the two dictionaries.  A
    specifier starting with "gpu" gives the ids [configure_device] returns
    under [gpus] and sets [persistent_workers]; "tpu" gives eight cores;
    any other specifier, "cpu" among them, leaves both dictionaries empty
    and raises nothing. *)
Theorem setup_devices_cases (device : string) :
  (startswith "gpu" device = true ->
   forall r x devs,
     configure_device device = Ok r ->
     unpack2 r = Ok (x, devs) ->
     setup_devices configure_device device
     = Ok ({["gpus" := devs]}, {["persistent_workers" := PyBool true]}))
  /\ setup_devices configure_device "tpu" = Ok ({["tpu_cores" := PyInt 8]}, ∅)
  /\ (startswith "gpu" device = false ->
      device <> "tpu"%string ->
      setup_devices configure_device device = Ok (∅, ∅))
  /\ setup_devices configure_device "cpu" = Ok (∅, ∅).
Proof.
  repeat split.
  - intros Hgpu r x devs Hr Hdevs. unfold setup_devices.
    rewrite Hgpu. rewrite Hr. cbn. rewrite Hdevs. reflexivity.
  - intros Hgpu Htpu. unfold setup_devices. rewrite Hgpu.
    destruct (String.eqb_spec device "tpu"); [contradiction | reflexivity].
Qed.

End Devices.

Lemma setup_devices_cases_witness :
  startswith "gpu" "gpu:0,1" = true
  /\ setup_devices configure_device_spec "gpu:0,1"
     = Ok ({["gpus" := PyList [PyInt 0; PyInt 1]]},
           {["persistent_workers" := PyBool true]}).
Proof.
  split; [reflexivity |].
  eapply (proj1 (setup_devices_cases configure_device_spec "gpu:0,1"));
    reflexivity.
Defined.

(** ** The noise dataset and the paired dataset *)

Section Datasets.
Context {scalar generator image : Type}.
Variable normal : generator -> scalar * generator.
Variable manual_seed : Z -> generator.
Variable random_seed : Z.
Variable construct_models : Config -> generator -> generator.

Lemma draws_length (n : nat) (g : generator) :
  length (draws normal n g).1 = n.
Proof.
  revert g. induction n as [|n IH]; intros g; [reflexivity |].
  cbn [draws]. destruct (normal g) as [x g1].
  specialize (IH g1). destruct (draws normal n g1) as [xs g2].
  cbn in *. by rewrite IH.
Qed.

Lemma randn_nonneg (size : list Z) (g : generator) :
  Forall (fun d => 0 <= d) size ->
  randn normal size g
  = Ok (mkTensor size (draws normal (Z.to_nat (numel size)) g).1,
        (draws normal (Z.to_nat (numel size)) g).2).
Proof.
  intros Hsize. unfold randn.
  assert (forallb (fun d => 0 <=? d) size = true) as ->.
  { apply forallb_forall. intros d Hd. apply Z.leb_le.
    rewrite Forall_forall in Hsize. by apply Hsize, list_elem_of_In. }
  by destruct (draws normal (Z.to_nat (numel size)) g).
Qed.

Lemma TensorDataset_single (t : Tensor scalar) (d : Z) (inner : list Z) :
  shape t = d :: inner ->
  TensorDataset [t] = Ok ((fun i => [select t i]) <$> seq 0 (Z.to_nat d)).
Proof.
  intros Hshape. unfold TensorDataset, size0. rewrite Hshape. cbn.
  rewrite Hshape. by rewrite Z.eqb_refl.
Qed.

Local Abbreviation stream := (noise_stream normal manual_seed random_seed construct_models).

Lemma ddpm_latent_dataset_ok (config : Config) (g0 : generator) :
  0 <= n_samples config ->
  0 <= image_size config ->
  ddpm_latent_dataset normal manual_seed random_seed construct_models config g0
  = Ok ((fun i => [select (mkTensor (latent_size config) (stream config)) i])
          <$> seq 0 (Z.to_nat (n_samples config))).
Proof.
  intros HN HS. unfold ddpm_latent_dataset, seed_everything.
  rewrite randn_nonneg by (repeat constructor; lia).
  unfold mbind, result_bind, Py.bind.
  by erewrite TensorDataset_single.
Qed.

Lemma numel_latent_size (config : Config) :
  0 <= n_samples config ->
  0 <= image_size config ->
  Z.to_nat (numel (latent_size config))
  = (Z.to_nat (n_samples config)
     * Z.to_nat (3 * image_size config * image_size config))%nat.
Proof.
  intros HN HS. unfold latent_size, numel. cbn [foldr].
  rewrite <- Z2Nat.inj_mul by nia. f_equal. lia.
Qed.

Lemma ddpm_latent_dataset_negative (config : Config) (g0 : generator) :
  n_samples config < 0 \/ image_size config < 0 ->
  ddpm_latent_dataset normal manual_seed random_seed construct_models config g0
  = Raise RuntimeError.
Proof.
  intros Hbad. unfold ddpm_latent_dataset, randn, latent_size. cbn [forallb].
  destruct (Z.leb_spec 0 (n_samples config));
    destruct (Z.leb_spec 0 (image_size config)); cbn; first [done | lia].
Qed.

(** A noise dataset that was built: the sizes were not negative and the
    items are the slices of the drawn tensor. *)
Lemma ddpm_latent_dataset_inv (config : Config) (g0 : generator)
    (ds : list (list (Tensor scalar))) :
  ddpm_latent_dataset normal manual_seed random_seed construct_models config g0
  = Ok ds ->
  0 <= n_samples config
  /\ 0 <= image_size config
  /\ ds = (fun i => [select (mkTensor (latent_size config) (stream config)) i])
           <$> seq 0 (Z.to_nat (n_samples config)).
Proof.
  intros Hds.
  destruct (Z.le_gt_cases 0 (n_samples config)) as [HN|HN];
    [| rewrite ddpm_latent_dataset_negative in Hds by lia; discriminate].
  destruct (Z.le_gt_cases 0 (image_size config)) as [HS|HS];
    [| rewrite ddpm_latent_dataset_negative in Hds by lia; discriminate].
  rewrite ddpm_latent_dataset_ok in Hds by done. by injection Hds as <-.
Qed.



End Datasets.

Section NoiseDataset.
Context {scalar generator image : Type}.
Variable normal : generator -> scalar * generator.
Variable manual_seed : Z -> generator.
Variable random_seed : Z.
Variable construct_models : Config -> generator -> generator.

Local Abbreviation stream := (noise_stream normal manual_seed random_seed construct_models).


(** C2: the paired dataset is the positional zip of the subsampled image
    dataset and the noise dataset: its length is the smaller of the image
    dataset's length and [n_samples], and its item [i] pairs item [i] of
    the one with item [i] of the other. *)
Theorem pred_dataset_positional (config : Config) (images : list image)
    (g0 : generator) :
  0 <= n_samples config ->
  0 <= image_size config ->
  let N := Z.to_nat (n_samples config) in
  let recons_dataset := ReconstructionDataset images (n_samples config) in
  exists noise ds,
    ddpm_latent_dataset normal manual_seed random_seed construct_models config g0 = Ok noise
    /\ pred_dataset normal manual_seed random_seed construct_models config images g0 = Ok ds
    /\ length ds = (length recons_dataset `min` N)%nat
    /\ forall i, ds !! i = (r ← recons_dataset !! i; z ← noise !! i; Some (r, z)).
Proof.
  intros HN HS N recons_dataset.
  pose proof (ddpm_latent_dataset_ok normal manual_seed random_seed construct_models
                config g0 HN HS) as Hnoise.
  eexists _, _. split; [exact Hnoise |].
  unfold pred_dataset. rewrite Hnoise. cbn. split; [reflexivity |].
  unfold ZipDataset. split.
  - by rewrite length_zip, length_fmap, length_seq.
  - intros i. fold recons_dataset. rewrite lookup_zip_with.
    destruct (recons_dataset !! i); cbn; [| done].
    by destruct (_ !! i).
Qed.

(** C10: whatever value [n_channels] has, the decoder is built with three
    output channels and [n_channels] input channels, and every tensor of
    the noise dataset has three channels and the two spatial dimensions
    [image_size]: [n_channels] reaches the decoder's input only. *)
Theorem channels_fixed (config : Config) (args : SuperResModelArgs) (c : Z)
    (g0 : generator) (ds : list (list (Tensor scalar))) :
  decoder_args config = Ok args ->
  ddpm_latent_dataset normal manual_seed random_seed construct_models
    (with_n_channels c config) g0 = Ok ds ->
  in_channels args = n_channels config
  /\ out_channels args = 3
  /\ (exists args',
        decoder_args (with_n_channels c config) = Ok args'
        /\ in_channels args' = c
        /\ out_channels args' = 3)
  /\ length ds = Z.to_nat (n_samples config)
  /\ Forall (fun item => exists t,
                item = [t]
                /\ shape t = [3; image_size config; image_size config]) ds.
Proof.
  intros Hargs [HN [HS ->]]%ddpm_latent_dataset_inv.
  unfold decoder_args in *. cbn [attn_resolutions dim_mults with_n_channels] in *.
  destruct (__parse_str (attn_resolutions config)) as [attn|e]; [| discriminate].
  destruct (__parse_str (dim_mults config)) as [mults|e]; [| discriminate].
  cbn in Hargs. injection Hargs as <-. cbn.
  split; [done |]. split; [done |]. split; [by eexists |].
  split; [by rewrite length_fmap, length_seq |].
  apply Forall_fmap, Forall_forall. intros i _. by eexists.
Qed.

End NoiseDataset.

(** ** The batch loader *)

Lemma take_drop_succ {A : Type} (b : nat) (l : list A) :
  (b < length l)%nat ->
  exists x rest,
    drop b l = x :: rest /\ take (S b) l = take b l ++ [x] /\ drop (S b) l = rest.
Proof.
  intros Hb. destruct (lookup_lt_is_Some_2 l b Hb) as [x Hx].
  exists x, (drop (S b) l). split; [| split; [| reflexivity]].
  - by apply drop_S.
  - by apply take_S_r.
Qed.

Section BatchSampler.
Variable B : nat.
Hypothesis B_pos : (0 < B)%nat.

Local Open Scope nat_scope.

(** Indices already collected, fewer than a batch, behave as if they were
    still to come. *)
Lemma batch_sampler_pending (drop_last : bool) (batch pending rest : list nat) :
  length (batch ++ pending) < B ->
  batch_sampler B drop_last batch (pending ++ rest)
  = batch_sampler B drop_last (batch ++ pending) rest.
Proof.
  revert batch. induction pending as [|x pending IH]; intros batch Hlen.
  - by rewrite app_nil_r.
  - cbn [app batch_sampler].
    replace (batch ++ x :: pending) with ((batch ++ [x]) ++ pending) in *
      by by rewrite <- app_assoc.
    assert ((length (batch ++ [x]) =? B) = false) as ->.
    { apply Nat.eqb_neq. rewrite !length_app in *. lia. }
    by apply IH.
Qed.

Lemma batch_sampler_short (l : list nat) :
  0 < length l < B -> batch_sampler B false [] l = [l].
Proof.
  intros Hlen.
  rewrite <- (app_nil_r l) at 1.
  rewrite batch_sampler_pending by (cbn; lia).
  cbn. destruct l; [cbn in Hlen; lia | reflexivity].
Qed.

Lemma batch_sampler_full (l : list nat) :
  B <= length l ->
  batch_sampler B false [] l = take B l :: batch_sampler B false [] (drop B l).
Proof.
  intros Hlen.
  destruct (take_drop_succ (B - 1) l) as (x & rest & Hdrop & Htake & Hrest); [lia |].
  replace (S (B - 1)) with B in Htake, Hrest by lia.
  assert (Hb : length (take (B - 1) l) = B - 1) by (rewrite length_take; lia).
  rewrite <- (take_drop (B - 1) l) at 1.
  rewrite batch_sampler_pending by (cbn; lia).
  cbn [app]. rewrite Hdrop. cbn [batch_sampler].
  assert ((length (take (B - 1) l ++ [x]) =? B) = true) as ->.
  { apply Nat.eqb_eq. rewrite length_app, Hb. cbn. lia. }
  by rewrite Htake, Hrest.
Qed.

Lemma batch_sampler_chunks (l : list nat) :
  concat (batch_sampler B false [] l) = l
  /\ length (batch_sampler B false [] l) = (length l + B - 1) / B
  /\ forall i, batch_sampler B false [] l !! i
               = if decide (i * B < length l) then Some (take B (drop (i * B) l))
                 else None.
Proof.
  remember (length l) as n eqn:Hn. revert l Hn.
  induction n as [n IH] using lt_wf_ind; intros l Hn.
  destruct (decide (n = 0)) as [->|Hn0].
  { destruct l; [| discriminate]. cbn.
    split; [done |]. split.
    - symmetry. apply Nat.div_small. lia.
    - intros i. case_decide; [lia | done]. }
  destruct (decide (n < B)) as [Hlt|Hge].
  { rewrite batch_sampler_short by lia. cbn.
    split; [by rewrite app_nil_r |]. split.
    - apply (Nat.div_unique _ _ 1 (n - 1)); lia.
    - intros [|i]; cbn.
      + rewrite decide_True by lia. rewrite drop_0, take_ge; [done | lia].
      + rewrite decide_False; [done | nia]. }
  rewrite batch_sampler_full by lia.
  destruct (IH (n - B) ltac:(lia) (drop B l)) as (Hcat & Hlen & Hith).
  { rewrite length_drop. lia. }
  cbn [concat length]. split; [by rewrite Hcat, take_drop |]. split.
  - rewrite Hlen.
    replace (n + B - 1) with ((n - B + B - 1) + 1 * B) by lia.
    rewrite Nat.div_add by lia. lia.
  - intros [|i]; cbn [lookup list_lookup].
    + rewrite decide_True by lia. by rewrite drop_0.
    + change (batch_sampler B false [] (drop B l) !! i
              = if decide (S i * B < n) then Some (take B (drop (S i * B) l)) else None).
      rewrite Hith. rewrite drop_drop.
      replace (B + i * B) with (S i * B) by lia.
      destruct (decide (i * B < n - B)), (decide (S i * B < n)); try done; lia.
Qed.

End BatchSampler.

Section Loader.
Context {A : Type}.
Variable perm : list nat.

Lemma val_loader_ok (config : Config) (loader_kws : gmap string obj)
    (dataset : list A) :
  0 < batch_size config ->
  0 <= workers config ->
  (persistent_workers_kw loader_kws = true -> 0 < workers config) ->
  val_loader config loader_kws dataset
  = Ok (mkDataLoader dataset (Z.to_nat (batch_size config)) false false true
          (workers config) (persistent_workers_kw loader_kws)).
Proof.
  intros HB Hw Hp. unfold val_loader, new_DataLoader.
  destruct (Z.ltb_spec (workers config) 0); [lia |].
  destruct (Z.leb_spec (batch_size config) 0); [lia |].
  destruct (persistent_workers_kw loader_kws); [| reflexivity].
  destruct (Z.eqb_spec (workers config) 0); [| reflexivity].
  specialize (Hp eq_refl). lia.
Qed.

Lemma sequential_index_batches (dataset : list A) (B : nat) (pin : bool)
    (num_workers : Z) (persistent : bool) :
  index_batches perm (mkDataLoader dataset B false false pin num_workers persistent)
  = batch_sampler B false [] (seq 0 (length dataset)).
Proof. reflexivity. Qed.

(** C3: the loader the script builds neither shuffles nor drops the last
    batch.  For a dataset of [n] items and a batch size [B] its index
    batches are, in order, the consecutive groups of [0 .. n-1]: there are
    [ceil(n/B)] of them, batch [i] is [i*B, ..., i*B + min(B, n - i*B) - 1],
    and when [B] does not divide [n] the last one has [n mod B] indices;
    10 items in batches of 4 give [0,1,2,3], [4,5,6,7], [8,9]. *)
Theorem val_loader_batches (config : Config) (loader_kws : gmap string obj)
    (dataset : list A) :
  0 < batch_size config ->
  0 <= workers config ->
  (persistent_workers_kw loader_kws = true -> 0 < workers config) ->
  let n := length dataset in
  let B := Z.to_nat (batch_size config) in
  exists dl,
    val_loader config loader_kws dataset = Ok dl
    /\ dl_shuffle dl = false
    /\ dl_drop_last dl = false
    /\ concat (index_batches perm dl) = seq 0 n
    /\ length (index_batches perm dl) = ((n + B - 1) / B)%nat
    /\ (forall i, (i < length (index_batches perm dl))%nat ->
          index_batches perm dl !! i = Some (seq (i * B) (B `min` (n - i * B))))
    /\ ((n `mod` B)%nat <> 0%nat ->
        last (index_batches perm dl) = Some (seq (n - n `mod` B) (n `mod` B)))
    /\ (n = 10%nat -> B = 4%nat ->
        index_batches perm dl = [[0; 1; 2; 3]; [4; 5; 6; 7]; [8; 9]]%nat).
Proof.
  intros HB Hw Hp n B.
  assert (HBpos : (0 < B)%nat) by (unfold B; lia).
  eexists. split; [by apply val_loader_ok |].
  rewrite sequential_index_batches. fold n B.
  destruct (batch_sampler_chunks B HBpos (seq 0 n)) as (Hcat & Hlen & Hith).
  rewrite length_seq in Hlen, Hith.
  assert (Hbatch : forall i, (i * B < n)%nat ->
            batch_sampler B false [] (seq 0 n) !! i
            = Some (seq (i * B) (B `min` (n - i * B)))).
  { intros i Hi. rewrite Hith, decide_True by done.
    by rewrite drop_seq, take_seq. }
  repeat split; try done.
  - intros i Hi. apply Hbatch.
    destruct (decide (i * B < n)%nat) as [|Hge]; [done |].
    apply lookup_lt_is_Some_2 in Hi as [b Hb].
    rewrite Hith, decide_False in Hb by done. discriminate.
  - intros Hmod. rewrite last_lookup, Hlen.
    pose proof (Nat.div_mod_eq n B) as Hdiv.
    pose proof (Nat.mod_upper_bound n B ltac:(lia)) as Hlt.
    assert (((n + B - 1) / B)%nat = S (n / B)) as ->.
    { symmetry. apply (Nat.div_unique _ _ _ (n `mod` B - 1)); lia. }
    cbn [pred]. rewrite Hbatch by nia.
    f_equal. f_equal; lia.
  - intros -> ->. reflexivity.
Qed.

End Loader.

(** ** The prediction loop and the whole run *)

Section Driver.
Context {A out : Type}.
Variable predict_step : list A -> nat -> list out.
Hypothesis predict_step_length :
  forall batch idx, length (predict_step batch idx) = length batch.

Local Open Scope nat_scope.

Lemma write_on_batch_end_numbered (w : ImageWriter out) (outputs : list out) :
  (iw_files w).*1 = seq 0 (length (iw_files w)) ->
  let w' := write_on_batch_end w outputs in
  (iw_files w').*1 = seq 0 (length (iw_files w'))
  /\ length (iw_files w') = length (iw_files w) + length outputs
  /\ iw_invocations w' = S (iw_invocations w).
Proof.
  intros Hw. cbn.
  assert (Hlen : length (zip (seq (length (iw_files w)) (length outputs)) outputs)
                 = length outputs).
  { rewrite length_zip, length_seq. lia. }
  rewrite length_app, Hlen. repeat split.
  rewrite fmap_app, Hw, fst_zip by (rewrite length_seq; lia).
  by rewrite seq_app.
Qed.

Lemma predict_loop (j : nat -> list A -> nat * list A) (loader : list (list A))
    (w : ImageWriter out) :
  (forall i b, (j i b).2 = b) ->
  (iw_files w).*1 = seq 0 (length (iw_files w)) ->
  let w' := foldl (fun w '(batch_idx, batch) =>
                     write_on_batch_end w (predict_step batch batch_idx))
              w (imap j loader) in
  (iw_files w').*1 = seq 0 (length (iw_files w'))
  /\ length (iw_files w') = length (iw_files w) + length (concat loader)
  /\ iw_invocations w' = iw_invocations w + length loader.
Proof.
  revert j w. induction loader as [|batch loader IH]; intros j w Hj Hw.
  - cbn. repeat split; [done | lia | lia].
  - rewrite imap_cons. cbn [foldl].
    pose proof (Hj 0 batch) as Hb. destruct (j 0 batch) as [idx batch'].
    cbn in Hb. subst batch'.
    destruct (write_on_batch_end_numbered w (predict_step batch idx) Hw)
      as (Hnum & Hlen & Hinv).
    destruct (IH (j ∘ S) (write_on_batch_end w (predict_step batch idx)))
      as (Hnum' & Hlen' & Hinv'); [by intros; apply Hj | done |].
    cbn zeta. split; [exact Hnum' |]. split.
    + rewrite Hlen', Hlen, predict_step_length. cbn [concat].
      rewrite length_app. lia.
    + rewrite Hinv', Hinv. cbn [length]. lia.
Qed.

Lemma predict_numbered (loader : list (list A)) (callback : ImageWriter out) :
  iw_files callback = [] ->
  iw_invocations callback = 0 ->
  let w := predict predict_step loader callback in
  iw_invocations w = length loader
  /\ (iw_files w).*1 = seq 0 (length (concat loader)).
Proof.
  intros Hfiles Hinv0.
  destruct (predict_loop pair loader callback) as (Hnum & Hlen & Hinv);
    [done | by rewrite Hfiles |].
  cbn zeta. unfold predict. split; [by rewrite Hinv, Hinv0 |].
  rewrite Hnum, Hlen, Hfiles. reflexivity.
Qed.

End Driver.

Section EndToEnd.
Context {scalar generator image out : Type}.
Variable normal : generator -> scalar * generator.
Variable manual_seed : Z -> generator.
Variable random_seed : Z.
Variable construct_models : Config -> generator -> generator.
Variable configure_device : string -> result obj.
Variable perm : list nat.
Variable predict_step :
  gmap string (Tensor scalar) -> list (image * list (Tensor scalar)) -> nat -> list out.

Lemma ten_items {X : Type} (l : list X) :
  length l = 10%nat ->
  exists x0 x1 x2 x3 x4 x5 x6 x7 x8 x9, l = [x0; x1; x2; x3; x4; x5; x6; x7; x8; x9].
Proof.
  intros Hlen.
  do 10 (destruct l as [|? l]; [discriminate |]).
  destruct l; [| discriminate]. by repeat eexists.
Qed.

(** C8: a run with [n_samples = 10], [batch_size = 4] and device "cpu",
    whose checkpoints load, whose configuration strings parse and whose
    image directory holds at least ten images, ends with the writer
    invoked three times, once per batch; the batches hold 4, 4 and 2
    samples, ten in all, and the files written carry the indices 0 to 9,
    each once, in order.  The inference unit returns one output per
    sample of the batch. *)
Theorem generate_recons_10_4_cpu (config : Config)
    (vae_checkpoint vae_constructed ddpm_checkpoint wrapper_constructed :
       gmap string (Tensor scalar))
    (images : list image) (g0 : generator) :
  n_samples config = 10 ->
  batch_size config = 4 ->
  device config = "cpu"%string ->
  0 <= image_size config ->
  0 <= workers config ->
  is_Ok (load_vae vae_checkpoint vae_constructed) ->
  is_Ok (decoder_args config) ->
  is_Ok (load_ddpm_wrapper ddpm_checkpoint wrapper_constructed) ->
  (10 <= length images)%nat ->
  (forall params batch idx, length (predict_step params batch idx) = length batch) ->
  exists dataset loader test_kwargs w,
    pred_dataset normal manual_seed random_seed construct_models config images g0 = Ok dataset
    /\ val_loader config ∅ dataset = Ok loader
    /\ generate_recons normal manual_seed random_seed construct_models configure_device perm
         predict_step config vae_checkpoint vae_constructed ddpm_checkpoint
         wrapper_constructed images g0 = Ok (test_kwargs, w)
    /\ iw_invocations w = 3%nat
    /\ length <$> batches perm loader = [4; 4; 2]%nat
    /\ length (concat (batches perm loader)) = 10%nat
    /\ (iw_files w).*1 = seq 0 10.
Proof.
  intros HN HB Hdev HS Hw [vae Hvae] [args Hargs] [wrapper Hwrapper] Himages Hstep.
  assert (HN0 : 0 <= n_samples config) by lia.
  pose proof (ddpm_latent_dataset_ok normal manual_seed random_seed construct_models
                config g0 HN0 HS) as Hnoise.
  assert (exists dataset,
             pred_dataset normal manual_seed random_seed construct_models config images g0
             = Ok dataset /\ length dataset = 10%nat) as (dataset & Hds & Hlen).
  { unfold pred_dataset. rewrite Hnoise. eexists. split; [reflexivity |].
    unfold ZipDataset, ReconstructionDataset.
    rewrite length_zip, length_take, length_fmap, length_seq, HN. lia. }
  destruct (ten_items dataset Hlen) as (x0&x1&x2&x3&x4&x5&x6&x7&x8&x9&->).
  assert (Hloader :
            val_loader config ∅ [x0; x1; x2; x3; x4; x5; x6; x7; x8; x9]
            = Ok (mkDataLoader [x0; x1; x2; x3; x4; x5; x6; x7; x8; x9] 4
                    false false true (workers config) false)).
  { rewrite val_loader_ok.
    - by rewrite HB.
    - lia.
    - exact Hw.
    - discriminate. }
  eexists _, _, _, _. split; [exact Hds |]. split; [exact Hloader |].
  assert (Hrun :
            generate_recons normal manual_seed random_seed construct_models configure_device
              perm predict_step config vae_checkpoint vae_constructed
              ddpm_checkpoint wrapper_constructed images g0
            = Ok (<["default_root_dir" := PyStr (save_path config)]>
                    (<["callbacks" := PyList [PyObject "ImageWriter"]]> ∅),
                  predict (predict_step wrapper)
                    [[x0; x1; x2; x3]; [x4; x5; x6; x7]; [x8; x9]]
                    (write_callback config))).
  { unfold generate_recons. rewrite Hvae, Hargs, Hwrapper, Hds, Hdev.
    cbn -[val_loader predict]. rewrite Hloader. reflexivity. }
  split; [exact Hrun |].
  destruct (predict_numbered (predict_step wrapper) (Hstep wrapper)
              [[x0; x1; x2; x3]; [x4; x5; x6; x7]; [x8; x9]]
              (write_callback config) eq_refl eq_refl)
    as [Hinv Hfiles].
  split; [exact Hinv |]. split; [reflexivity |].
  split; [reflexivity | exact Hfiles].
Qed.

End EndToEnd.

(** ** The checkpoint loads *)

Section Checkpoints.
Context {scalar : Type}.
Implicit Types own snapshot checkpoint constructed : gmap string (Tensor scalar).

Lemma offered_same_shape (t t' : Tensor scalar) :
  shape t = shape t' -> offered t t' = t'.
Proof.
  unfold offered. intros ->. by destruct (shape t') as [|? [|? ?]].
Qed.

Lemma offered_own_shape (t1 t2 t' : Tensor scalar) :
  shape t1 = shape t2 -> offered t1 t' = offered t2 t'.
Proof. unfold offered. by intros ->. Qed.

Lemma elem_of_index_errors own snapshot (k : string) :
  k ∈ index_errors own snapshot
  <-> exists t t' n, own !! k = Some t /\ snapshot !! k = Some t'
                     /\ shape t = [] /\ shape t' = [n] /\ n <= 0.
Proof.
  unfold index_errors. rewrite elem_of_dom, lookup_merge.
  unfold diag_None, index_clash, is_Some.
  destruct (own !! k) as [t|], (snapshot !! k) as [t'|]; cbn.
  - destruct (shape t) as [|d ds] eqn:Ht.
    + destruct (shape t') as [|n [|m ms]] eqn:Ht'.
      * split; [intros [? ?]; discriminate |].
        intros (? & ? & ? & _ & [= <-] & _ & ? & _). congruence.
      * destruct (Z.leb_spec n 0).
        -- split; [intros _; by exists t, t', n | by eauto].
        -- split; [intros [? ?]; discriminate |].
           intros (? & ? & n' & _ & [= <-] & _ & Hn & ?).
           rewrite Ht' in Hn. injection Hn as <-. lia.
      * split; [intros [? ?]; discriminate |].
        intros (? & ? & ? & _ & [= <-] & _ & ? & _). congruence.
    + split; [intros [? ?]; discriminate |].
      intros (? & ? & ? & [= <-] & _ & ? & _). congruence.
  - split; [intros [? ?]; discriminate | intros (? & ? & ? & _ & ? & _); discriminate].
  - split; [intros [? ?]; discriminate | intros (? & ? & ? & ? & _); discriminate].
  - split; [intros [? ?]; discriminate | intros (? & ? & ? & ? & _); discriminate].
Qed.

Lemma index_errors_empty own snapshot :
  index_errors own snapshot = ∅
  <-> forall k t t' n, own !! k = Some t -> snapshot !! k = Some t' ->
                       shape t = [] -> shape t' = [n] -> 0 < n.
Proof.
  split.
  - intros Hempty k t t' n Ht Ht' Hs Hs'.
    destruct (Z.lt_ge_cases 0 n) as [|Hn]; [done |].
    assert (k ∈ index_errors own snapshot) as Hk.
    { apply elem_of_index_errors. exists t, t', n. repeat split; first [done | lia]. }
    rewrite Hempty in Hk. by apply not_elem_of_empty in Hk.
  - intros Hpos. apply set_eq. intros k. rewrite elem_of_index_errors.
    split; [| by intros ?%not_elem_of_empty].
    intros (t & t' & n & Ht & Ht' & Hs & Hs' & Hn).
    pose proof (Hpos k t t' n Ht Ht' Hs Hs'). lia.
Qed.

Lemma elem_of_size_mismatches own snapshot (k : string) :
  k ∈ size_mismatches own snapshot
  <-> exists t t', own !! k = Some t /\ snapshot !! k = Some t'
                   /\ shape t <> shape (offered t t').
Proof.
  unfold size_mismatches. rewrite elem_of_dom, lookup_merge.
  unfold diag_None, shape_clash, is_Some.
  destruct (own !! k) as [t|], (snapshot !! k) as [t'|]; cbn;
    [destruct (decide (shape t = shape (offered t t'))) as [Heq|Hne] | | |].
  - split; [intros [? ?]; discriminate |].
    intros (? & ? & [= <-] & [= <-] & Hne). contradiction.
  - split; [intros _; by exists t, t' | by eauto].
  - split; [intros [? ?]; discriminate | intros (? & ? & _ & ? & _); discriminate].
  - split; [intros [? ?]; discriminate | intros (? & ? & ? & _); discriminate].
  - split; [intros [? ?]; discriminate | intros (? & ? & ? & _); discriminate].
Qed.

Lemma size_mismatches_empty own snapshot :
  size_mismatches own snapshot = ∅
  <-> forall k t t', own !! k = Some t -> snapshot !! k = Some t' ->
                     shape t = shape (offered t t').
Proof.
  split.
  - intros Hempty k t t' Ht Ht'.
    destruct (decide (shape t = shape (offered t t'))) as [|Hne]; [done |].
    assert (k ∈ size_mismatches own snapshot) as Hk
      by (apply elem_of_size_mismatches; eauto).
    rewrite Hempty in Hk. by apply not_elem_of_empty in Hk.
  - intros Hshape. apply set_eq. intros k. rewrite elem_of_size_mismatches.
    split; [| by intros ?%not_elem_of_empty].
    intros (t & t' & Ht & Ht' & Hne). destruct Hne. by eapply Hshape.
Qed.

Lemma lookup_restore own snapshot (k : string) :
  merge restore own snapshot !! k = restore (own !! k) (snapshot !! k).
Proof. rewrite lookup_merge. by destruct (own !! k), (snapshot !! k). Qed.

(** With the model's shapes on the common keys, nothing stands in the way
    of the load but the strict test of the keys. *)
Lemma same_shapes_no_clash own snapshot :
  (forall k t t', own !! k = Some t -> snapshot !! k = Some t' ->
                  shape t = shape t') ->
  index_errors own snapshot = ∅ /\ size_mismatches own snapshot = ∅.
Proof.
  intros Hshape. split.
  - apply index_errors_empty. intros k t t' n Ht Ht' Hs Hs'.
    pose proof (Hshape k t t' Ht Ht'). congruence.
  - apply size_mismatches_empty. intros k t t' Ht Ht'.
    pose proof (Hshape k t t' Ht Ht') as Heq.
    by rewrite (offered_same_shape _ _ Heq).
Qed.

(** C1, as the code has it: the wrapper is loaded with [strict=False].
    When every parameter present both in the snapshot and in the model has
    the model's shape, the load succeeds whichever parameters the snapshot
    lacks, of the VAE or of a diffusion network: the parameters found in
    the snapshot are restored and the others keep their constructed
    values. *)
Theorem relaxed_wrapper_load checkpoint constructed :
  (forall k t t', constructed !! k = Some t -> checkpoint !! k = Some t' ->
                  shape t = shape t') ->
  exists loaded,
    load_ddpm_wrapper checkpoint constructed = Ok loaded
    /\ dom loaded = dom constructed
    /\ (forall k t, k ∈ dom constructed -> checkpoint !! k = Some t ->
                    loaded !! k = Some t)
    /\ (forall k, checkpoint !! k = None -> loaded !! k = constructed !! k).
Proof.
  intros Hshape.
  destruct (same_shapes_no_clash constructed checkpoint Hshape) as [Hi Hs].
  unfold load_ddpm_wrapper, load_from_checkpoint, load_state_dict.
  rewrite !decide_True by done. cbn. eexists. split; [reflexivity |].
  split; [| split].
  - apply set_eq. intros k. rewrite !elem_of_dom, lookup_restore.
    destruct (constructed !! k), (checkpoint !! k); cbn;
      split; intros [? ?]; by eauto.
  - intros k t [c Hc]%elem_of_dom Ht. rewrite lookup_restore, Hc, Ht. cbn.
    f_equal. apply offered_same_shape. by eapply Hshape.
  - intros k Hk. rewrite lookup_restore, Hk. by destruct (constructed !! k).
Qed.

End Checkpoints.

(** ** The EMA decoder *)

Section DeepCopy.
Context {scalar : Type}.
Implicit Types h : gmap loc (cell scalar).
Implicit Types memo : gmap loc loc.
Implicit Types params : list (string * loc).

Lemma param_loc_elem_of params (name : string) (l : loc) :
  param_loc params name = Some l -> (name, l) ∈ params.
Proof.
  induction params as [|[k l0] params IH]; cbn; [discriminate |].
  destruct (String.eqb_spec k name) as [->|Hne].
  - intros [= ->]. apply list_elem_of_here.
  - intros Hl. apply list_elem_of_further, IH, Hl.
Qed.

(** The copy of a parameter list keeps the names; every location is
    replaced by its image under the final memo table, and the images are
    new locations holding what the originals hold. *)
Lemma deepcopy_params_spec (h0 : gmap loc (cell scalar)) params :
  forall memo h,
    (forall name l, (name, l) ∈ params -> is_Some (h0 !! l)) ->
    h0 ⊆ h ->
    (forall l l', memo !! l = Some l' ->
                  (l' ∉ dom h0) /\ (l' ∈ dom h) /\ h !! l' = h0 !! l) ->
    exists params' memo' h',
      deepcopy_params params memo h = Ok (params', memo', h')
      /\ h0 ⊆ h'
      /\ memo ⊆ memo'
      /\ (forall l l', memo' !! l = Some l' ->
                       (l' ∉ dom h0) /\ (l' ∈ dom h') /\ h' !! l' = h0 !! l)
      /\ Forall2 (fun p p' => p.1 = p'.1 /\ memo' !! p.2 = Some p'.2) params params'.
Proof.
  induction params as [|[name l] params IH]; intros memo h Hwf Hsub Hmemo.
  { exists [], memo, h. cbn.
    split; [done |]. split; [done |]. split; [done |].
    split; [exact Hmemo | constructor]. }
  assert (Hwf' : forall name l, (name, l) ∈ params -> is_Some (h0 !! l)).
  { intros n k Hk. eapply Hwf, list_elem_of_further, Hk. }
  cbn [deepcopy_params].
  destruct (memo !! l) as [l'|] eqn:Hl.
  - destruct (IH memo h Hwf' Hsub Hmemo)
      as (params' & memo' & h' & -> & Hsub' & Hmono & Hmemo' & Hall).
    exists ((name, l') :: params'), memo', h'. cbn.
    split; [done |]. split; [done |]. split; [done |].
    split; [exact Hmemo' |].
    constructor; [| done]. split; [done |]. cbn.
    by eapply lookup_weaken.
  - destruct (Hwf name l) as [c Hc]; [apply list_elem_of_here |].
    assert (Hhl : h !! l = Some c) by by eapply lookup_weaken.
    rewrite Hhl.
    set (l' := fresh (dom h)).
    assert (Hfresh : l' ∉ dom h) by apply is_fresh.
    assert (Hnone : h !! l' = None) by by apply not_elem_of_dom.
    destruct (IH (<[l := l']> memo) (<[l' := c]> h)) as
      (params' & memo' & h' & -> & Hsub' & Hmono & Hmemo' & Hall).
    + exact Hwf'.
    + etrans; [exact Hsub |]. by apply insert_subseteq.
    + intros k k' Hk. destruct (decide (k = l)) as [->|Hne].
      * rewrite lookup_insert_eq in Hk. injection Hk as <-.
        split; [| split].
        -- intros Hin. apply Hfresh. eapply subseteq_dom; [exact Hsub | exact Hin].
        -- apply elem_of_dom. rewrite lookup_insert_eq. by eexists.
        -- by rewrite lookup_insert_eq.
      * rewrite lookup_insert_ne in Hk by done.
        destruct (Hmemo k k' Hk) as (Hk0 & Hkh & Hkv).
        assert (l' <> k') as Hnew by (intros ->; contradiction).
        split; [done |]. split.
        -- apply elem_of_dom. rewrite lookup_insert_ne by done.
           by apply elem_of_dom.
        -- by rewrite lookup_insert_ne.
    + exists ((name, l') :: params'), memo', h'. cbn.
      split; [done |]. split; [done |]. split.
      { etrans; [| exact Hmono]. by apply insert_subseteq. }
      split; [exact Hmemo' |].
      constructor; [| done]. split; [done |]. cbn.
      eapply lookup_weaken; [| exact Hmono]. by rewrite lookup_insert_eq.
Qed.

Lemma param_loc_copy memo params params' (name : string) :
  Forall2 (fun p p' => p.1 = p'.1 /\ memo !! p.2 = Some p'.2) params params' ->
  match param_loc params name with
  | Some l => exists l', param_loc params' name = Some l' /\ memo !! l = Some l'
  | None => param_loc params' name = None
  end.
Proof.
  induction 1 as [|[k l] [k' l'] params params' [Hk Hl] _ IH]; cbn in *; [done |].
  subst k'. destruct (String.eqb k name); [| exact IH]. by exists l'.
Qed.

(** C9: [copy.deepcopy] gives the EMA decoder as a new module object
    whose parameters are new tensor objects.  After the copy and the two
    calls of [eval], every parameter of the EMA decoder has the value of
    the same parameter of the online decoder, which the copy left as it
    was; a write to a parameter of either decoder changes that parameter
    and leaves every parameter of the other decoder unchanged. *)
Theorem ema_decoder_independent h (decoder : loc) (training : bool) params :
  h !! decoder = Some (ModuleCell training params) ->
  (forall name l, (name, l) ∈ params -> exists t, h !! l = Some (TensorCell t)) ->
  exists ema_decoder h',
    make_ema_decoder decoder h = Ok (ema_decoder, h')
    /\ ema_decoder <> decoder
    /\ (forall name, param_value h' decoder name = param_value h decoder name)
    /\ (forall name, param_value h' ema_decoder name = param_value h' decoder name)
    /\ (forall name v name',
          param_value (set_param h' ema_decoder name v) decoder name'
          = param_value h' decoder name')
    /\ (forall name v name',
          param_value (set_param h' decoder name v) ema_decoder name'
          = param_value h' ema_decoder name')
    /\ (forall name v,
          is_Some (param_value h' ema_decoder name) ->
          param_value (set_param h' ema_decoder name v) ema_decoder name = Some v)
    /\ (forall name v,
          is_Some (param_value h' decoder name) ->
          param_value (set_param h' decoder name v) decoder name = Some v).
Proof.
  intros Hdec Hwf.
  destruct (deepcopy_params_spec h params ∅ h)
    as (params' & memo' & h1 & Hcopy & Hsub & _ & Hmemo & Hall).
  { intros name l Hl. destruct (Hwf name l Hl) as [t Ht]. by eexists. }
  { done. }
  { intros l l' Hl. by rewrite lookup_empty in Hl. }
  set (ema := fresh (dom h1)).
  assert (Hema1 : ema ∉ dom h1) by apply is_fresh.
  assert (Hema0 : ema ∉ dom h).
  { intros Hin. apply Hema1. eapply subseteq_dom; [exact Hsub | exact Hin]. }
  assert (Hdec0 : decoder ∈ dom h) by (apply elem_of_dom; by eexists).
  assert (Hne : ema <> decoder) by (intros Heq; apply Hema0; by rewrite Heq).
  set (h3 := <[ema := ModuleCell false params']>
               (<[decoder := ModuleCell false params]>
                  (<[ema := ModuleCell training params']> h1))).
  assert (Hrun : make_ema_decoder decoder h = Ok (ema, h3)).
  { unfold make_ema_decoder, deepcopy. rewrite Hdec, Hcopy. cbn.
    unfold eval. rewrite lookup_insert_ne by done.
    rewrite (lookup_weaken _ _ _ _ Hdec Hsub). cbn.
    rewrite lookup_insert_ne by done. rewrite lookup_insert_eq. reflexivity. }
  assert (Hd3 : h3 !! decoder = Some (ModuleCell false params)).
  { unfold h3. rewrite lookup_insert_ne by done. by rewrite lookup_insert_eq. }
  assert (He3 : h3 !! ema = Some (ModuleCell false params')).
  { unfold h3. by rewrite lookup_insert_eq. }
  assert (Hother : forall l, l <> ema -> l <> decoder -> h3 !! l = h1 !! l).
  { intros l H1 H2. unfold h3. by rewrite !lookup_insert_ne. }
  assert (Hold : forall name l, param_loc params name = Some l ->
            exists t, h !! l = Some (TensorCell t)
                      /\ h3 !! l = Some (TensorCell t)
                      /\ l ∈ dom h /\ l <> decoder /\ l <> ema).
  { intros name l Hl. apply param_loc_elem_of in Hl.
    destruct (Hwf name l Hl) as [t Ht].
    assert (l ∈ dom h) as Hin by (apply elem_of_dom; by eexists).
    assert (l <> decoder) as Hld by (intros ->; rewrite Hdec in Ht; discriminate).
    assert (l <> ema) as Hle by (intros ->; contradiction).
    exists t. rewrite Hother by done.
    split; [done |]. split; [by eapply lookup_weaken | done]. }
  assert (Hnew : forall l l', memo' !! l = Some l' ->
            h3 !! l' = h !! l /\ (l' ∉ dom h) /\ l' <> decoder /\ l' <> ema).
  { intros l l' Hl. destruct (Hmemo l l' Hl) as (Hl0 & Hl1 & Hlv).
    assert (l' <> decoder) as Hld by (intros ->; contradiction).
    assert (l' <> ema) as Hle by (intros ->; contradiction).
    rewrite Hother by done. done. }
  exists ema, h3. split; [exact Hrun |]. split; [exact Hne |].
  split; [| split; [| split; [| split; [| split]]]].
  - intros name. unfold param_value. rewrite Hd3, Hdec.
    destruct (param_loc params name) as [l|] eqn:Hl; [| done].
    destruct (Hold name l Hl) as (t & -> & -> & _). done.
  - intros name. unfold param_value. rewrite Hd3, He3.
    pose proof (param_loc_copy memo' params params' name Hall) as Hname.
    destruct (param_loc params name) as [l|] eqn:Hl.
    + destruct Hname as (l' & -> & Hl').
      destruct (Hnew l l' Hl') as (-> & _).
      destruct (Hold name l Hl) as (t & -> & -> & _). done.
    + by rewrite Hname.
  - intros name v name'. unfold set_param. rewrite He3.
    destruct (param_loc params' name) as [l'|] eqn:Hl'; [| done].
    pose proof (param_loc_copy memo' params params' name Hall) as Hname.
    destruct (param_loc params name) as [l|] eqn:Hl;
      [| by rewrite Hname in Hl'].
    destruct Hname as (l'' & Hl'' & Hmem). rewrite Hl' in Hl''.
    injection Hl'' as <-.
    destruct (Hnew l l' Hmem) as (_ & Hfresh & Hld & Hle).
    unfold param_value. rewrite lookup_insert_ne by done. rewrite Hd3.
    destruct (param_loc params name') as [l2|] eqn:Hl2; [| done].
    destruct (Hold name' l2 Hl2) as (t2 & _ & _ & Hin2 & _).
    rewrite lookup_insert_ne; [done |]. intros ->. contradiction.
  - intros name v name'. unfold set_param. rewrite Hd3.
    destruct (param_loc params name) as [l|] eqn:Hl; [| done].
    destruct (Hold name l Hl) as (t & _ & _ & Hin & Hld & Hle).
    unfold param_value. rewrite lookup_insert_ne by done. rewrite He3.
    destruct (param_loc params' name') as [l2'|] eqn:Hl2'; [| done].
    pose proof (param_loc_copy memo' params params' name' Hall) as Hname.
    destruct (param_loc params name') as [l2|] eqn:Hl2;
      [| by rewrite Hname in Hl2'].
    destruct Hname as (l'' & Hl'' & Hmem). rewrite Hl2' in Hl''.
    injection Hl'' as <-.
    destruct (Hnew l2 l2' Hmem) as (_ & Hfresh & _).
    rewrite lookup_insert_ne; [done |]. intros ->. contradiction.
  - intros name v. unfold set_param, param_value. rewrite He3.
    destruct (param_loc params' name) as [l'|] eqn:Hl'; [| by intros [? [=]]].
    intros _.
    pose proof (param_loc_copy memo' params params' name Hall) as Hname.
    destruct (param_loc params name) as [l|] eqn:Hl;
      [| by rewrite Hname in Hl'].
    destruct Hname as (l'' & Hl'' & Hmem). rewrite Hl' in Hl''.
    injection Hl'' as <-.
    destruct (Hnew l l' Hmem) as (_ & _ & _ & Hle).
    rewrite lookup_insert_ne by done. rewrite He3, Hl'.
    by rewrite lookup_insert_eq.
  - intros name v. unfold set_param, param_value. rewrite Hd3.
    destruct (param_loc params name) as [l|] eqn:Hl; [| by intros [? [=]]].
    intros _.
    destruct (Hold name l Hl) as (t & _ & _ & _ & Hld & _).
    rewrite lookup_insert_ne by done. rewrite Hd3, Hl.
    by rewrite lookup_insert_eq.
Qed.

End DeepCopy.

(** ** The properties on concrete inputs *)



Lemma channels_fixed_witness :
  exists args ds,
    decoder_args example_config = Ok args
    /\ ddpm_latent_dataset counter_normal counter_seed 7 no_construction
         (with_n_channels 7 example_config) 5%nat = Ok ds
    /\ in_channels args = 1
    /\ out_channels args = 3
    /\ (exists args',
          decoder_args (with_n_channels 7 example_config) = Ok args'
          /\ in_channels args' = 7
          /\ out_channels args' = 3)
    /\ length ds = 10%nat
    /\ Forall (fun item => exists t, item = [t] /\ shape t = [3; 2; 2]) ds.
Proof.
  eexists _, _. split; [reflexivity |]. split; [reflexivity |].
  exact (channels_fixed counter_normal counter_seed 7 no_construction
           example_config _ 7 5%nat _ eq_refl eq_refl).
Defined.

Lemma pred_dataset_positional_witness :
  0 <= n_samples example_config
  /\ 0 <= image_size example_config
  /\ exists noise ds,
      ddpm_latent_dataset counter_normal counter_seed 7 no_construction
        example_config 5%nat = Ok noise
      /\ pred_dataset counter_normal counter_seed 7 no_construction example_config
           [100; 101; 102]%nat 5%nat = Ok ds
      /\ length ds = 3%nat
      /\ ds !! 2%nat = (z ← noise !! 2%nat; Some (102%nat, z)).
Proof.
  assert (HN : 0 <= n_samples example_config) by (by vm_compute).
  assert (HS : 0 <= image_size example_config) by (by vm_compute).
  split; [exact HN |]. split; [exact HS |].
  destruct (pred_dataset_positional counter_normal counter_seed 7 no_construction
              example_config [100; 101; 102]%nat 5%nat HN HS)
    as (noise & ds & Hnoise & Hds & Hlen & Hitem).
  exists noise, ds. split; [exact Hnoise |]. split; [exact Hds |].
  split; [exact Hlen | exact (Hitem 2%nat)].
Defined.

Lemma val_loader_batches_witness :
  0 < batch_size example_config
  /\ 0 <= workers example_config
  /\ exists dl,
      val_loader example_config ∅ (seq 0 10) = Ok dl
      /\ index_batches [] dl = [[0; 1; 2; 3]; [4; 5; 6; 7]; [8; 9]]%nat.
Proof.
  assert (HB : 0 < batch_size example_config) by (by vm_compute).
  assert (Hw : 0 <= workers example_config) by (by vm_compute).
  split; [exact HB |]. split; [exact Hw |].
  destruct (val_loader_batches [] example_config ∅ (seq 0 10) HB Hw)
    as (dl & Hdl & _ & _ & _ & _ & _ & _ & Hten); [discriminate |].
  exists dl. split; [exact Hdl |]. by apply Hten.
Defined.

Lemma generate_recons_10_4_cpu_witness :
  exists test_kwargs w,
    generate_recons counter_normal counter_seed 7 no_construction configure_device_spec
      [] echo_step example_config ∅ ∅ ∅ ∅ (seq 100 12) 5%nat = Ok (test_kwargs, w)
    /\ iw_invocations w = 3%nat
    /\ (iw_files w).*1 = seq 0 10.
Proof.
  destruct (generate_recons_10_4_cpu counter_normal counter_seed 7 no_construction
              configure_device_spec [] echo_step example_config ∅ ∅ ∅ ∅
              (seq 100 12) 5%nat)
    as (dataset & loader & test_kwargs & w & _ & _ & Hrun & Hinv & _ & _ & Hfiles).
  - reflexivity.
  - reflexivity.
  - reflexivity.
  - by vm_compute.
  - by vm_compute.
  - eexists. reflexivity.
  - eexists. reflexivity.
  - eexists. reflexivity.
  - cbn. lia.
  - intros params batch idx. apply length_fmap.
  - exists test_kwargs, w. split; [exact Hrun |]. split; [exact Hinv | exact Hfiles].
Defined.

Lemma relaxed_wrapper_load_witness :
  (forall k t t', wrapper_constructed !! k = Some t ->
                  snapshot_without_online !! k = Some t' -> shape t = shape t')
  /\ exists loaded,
      load_ddpm_wrapper snapshot_without_online wrapper_constructed = Ok loaded
      /\ dom loaded = dom wrapper_constructed
      /\ (forall k t, k ∈ dom wrapper_constructed ->
                      snapshot_without_online !! k = Some t -> loaded !! k = Some t)
      /\ (forall k, snapshot_without_online !! k = None ->
                    loaded !! k = wrapper_constructed !! k).
Proof.
  assert (Hshape : forall k t t', wrapper_constructed !! k = Some t ->
                     snapshot_without_online !! k = Some t' -> shape t = shape t').
  { intros k t t' Hc Hs. unfold snapshot_without_online in Hs.
    apply lookup_singleton_Some in Hs as [<- <-].
    vm_compute in Hc. by injection Hc as <-. }
  split; [exact Hshape |].
  exact (relaxed_wrapper_load snapshot_without_online wrapper_constructed Hshape).
Defined.

(** C1: a snapshot without the online network's parameter is loaded
    without an error, the parameter keeping its constructed value. *)
Lemma relaxed_load_accepts_missing_diffusion_parameter :
  is_vae_key "online_network.decoder.weight" = false
  /\ wrapper_constructed !! "online_network.decoder.weight"%string
     = Some (mkTensor [2] [0; 0])
  /\ snapshot_without_online !! "online_network.decoder.weight"%string = None
  /\ load_ddpm_wrapper snapshot_without_online wrapper_constructed
     = Ok (<["target_network.decoder.weight"%string := mkTensor [2] [5; 6]]>
             wrapper_constructed).
Proof. repeat split. Qed.

Lemma ema_decoder_independent_witness :
  exists ema_decoder h',
    make_ema_decoder 3%positive decoder_heap = Ok (ema_decoder, h')
    /\ ema_decoder <> 3%positive
    /\ param_value h' ema_decoder "tied" = Some (mkTensor [2] [1; 2])
    /\ param_value (set_param h' ema_decoder "tied" (mkTensor [2] [8; 9]))
         3%positive "weight"
       = Some (mkTensor [2] [1; 2]).
Proof.
  destruct (ema_decoder_independent decoder_heap 3%positive true
              [("weight"%string, 1%positive); ("bias"%string, 2%positive);
               ("tied"%string, 1%positive)])
    as (ema & h' & Hrun & Hne & Hkept & Hsame & Hema & _).
  - reflexivity.
  - intros name l Hin.
    repeat (apply elem_of_cons in Hin as [[= -> ->]|Hin]; [eexists; reflexivity |]).
    by apply elem_of_nil in Hin.
  - exists ema, h'. split; [exact Hrun |]. split; [exact Hne |]. split.
    + rewrite Hsame, Hkept. reflexivity.
    + rewrite Hema, Hkept. reflexivity.
Defined.

(** * Further properties of the script *)

(** ** More on the configuration parser *)

Section ParseStrMore.

Lemma int_PyStr_cases (t : string) :
  (exists z, int (PyStr t) = Ok z) \/ int (PyStr t) = Raise ValueError.
Proof.
  cbn. destruct (int_of_chars _); [left; by eexists | by right].
Qed.

Lemma parse_tokens_raise (toks : list string) :
  parse_tokens (PyStr <$> toks) = Raise ValueError
  <-> Exists (fun t => int (PyStr t) = Raise ValueError)
        (filter (fun t => t <> EmptyString) toks).
Proof.
  induction toks as [|t toks IH].
  - cbn. split; [discriminate | by intros ?%Exists_nil].
  - rewrite fmap_cons. cbn [parse_tokens].
    rewrite ne_empty_str_PyStr, filter_cons.
    destruct (decide (t <> EmptyString)) as [Hne|Hempty].
    + rewrite bool_decide_eq_true_2 by done. rewrite Exists_cons.
      destruct (int_PyStr_cases t) as [[z Hz]|Hraise].
      * rewrite Hz. cbn.
        destruct (parse_tokens (PyStr <$> toks)) as [zs|e] eqn:Hrest; cbn.
        -- split; [discriminate |]. intros [Hz'|Hex]; [congruence |].
           by apply IH in Hex.
        -- rewrite <- IH. split; [by right |]. intros [Hz'|?]; [congruence | done].
      * rewrite Hraise. cbn. split; [by left | done].
    + rewrite bool_decide_eq_false_2 by done. exact IH.
Qed.

Lemma parse_tokens_exn (toks : list string) (e : exn) :
  parse_tokens (PyStr <$> toks) = Raise e -> e = ValueError.
Proof.
  induction toks as [|t toks IH]; [discriminate |].
  rewrite fmap_cons. cbn [parse_tokens].
  destruct (ne_empty_str (PyStr t) && is_not_None (PyStr t)); [| exact IH].
  destruct (int_PyStr_cases t) as [[z Hz] | Hz]; rewrite Hz; cbn;
    [| by intros [= <-]].
  destruct (parse_tokens (PyStr <$> toks)); cbn; [discriminate |].
  intros [= <-]. by apply IH.
Qed.

(** X1: on a string, [__parse_str] raises exactly when [int] rejects some
    non-empty token, and the exception is then [ValueError]; no other
    exception leaves it. *)
Theorem parse_str_raises_iff (s : string) :
  (__parse_str (PyStr s) = Raise ValueError
   <-> Exists (fun t => int (PyStr t) = Raise ValueError) (nonempty_tokens s))
  /\ (forall e, __parse_str (PyStr s) = Raise e -> e = ValueError).
Proof.
  split; [apply parse_tokens_raise | apply parse_tokens_exn].
Qed.

Lemma str_split_cons (sep : ascii) (s : string) :
  exists tok rest, str_split sep s = tok :: rest.
Proof.
  destruct s as [|c s]; cbn; [by eexists _, _ |].
  destruct (Ascii.eqb c sep); [by eexists _, _ |].
  destruct (str_split sep s); by eexists _, _.
Qed.

Lemma str_split_app (sep : ascii) (s1 s2 : string) :
  str_split sep (s1 +:+ String sep s2) = str_split sep s1 ++ str_split sep s2.
Proof.
  induction s1 as [|c s1 IH]; simpl.
  - by rewrite Ascii.eqb_refl.
  - rewrite IH. destruct (Ascii.eqb c sep); [done |].
    by destruct (str_split_cons sep s1) as (tok & rest & ->).
Qed.

Lemma parse_tokens_app (l1 l2 : list obj) :
  parse_tokens (l1 ++ l2)
  = (a ← parse_tokens l1; b ← parse_tokens l2; mret (a ++ b)).
Proof.
  induction l1 as [|x l1 IH]; cbn [app parse_tokens].
  - cbn. by destruct (parse_tokens l2).
  - destruct (ne_empty_str x && is_not_None x); [| exact IH].
    destruct (int x) as [z|e]; cbn; [| done].
    rewrite IH. destruct (parse_tokens l1) as [a|e]; cbn; [| done].
    by destruct (parse_tokens l2).
Qed.

(** X2: parsing two strings joined by a comma is parsing the first, then
    the second, and appending the results; the first error met is the one
    raised. *)
Theorem parse_str_comma (s1 s2 : string) :
  __parse_str (PyStr (s1 +:+ String "," s2))
  = (a ← __parse_str (PyStr s1); b ← __parse_str (PyStr s2); mret (a ++ b)).
Proof.
  unfold __parse_str. cbn [split_comma]. cbn [mbind result_bind Py.bind].
  by rewrite str_split_app, fmap_app, parse_tokens_app.
Qed.

(** X3: the tokens of a string lose nothing: joined again by commas they
    give the string back. *)
Theorem tokens_join (s : string) : String.concat "," (tokens s) = s.
Proof.
  unfold tokens. induction s as [|c s IH]; [reflexivity |].
  cbn [str_split].
  destruct (str_split_cons "," s) as (tok & rest & Hs). rewrite Hs in IH |- *.
  destruct (Ascii.eqb_spec c ",") as [->|Hne].
  - cbn [String.concat]. cbn. by rewrite <- IH.
  - destruct rest as [|tok' rest]; cbn in IH |- *; by rewrite <- IH.
Qed.

Lemma list_ascii_of_string_app (a b : string) :
  String.list_ascii_of_string (a +:+ b)
  = String.list_ascii_of_string a ++ String.list_ascii_of_string b.
Proof. induction a as [|c a IH]; simpl; [done | by rewrite IH]. Qed.

Lemma lstrip_spaces_l (ws cs : list ascii) :
  forallb is_space ws = true -> lstrip (ws ++ cs) = lstrip cs.
Proof.
  induction ws as [|c ws IH]; simpl; [done |].
  intros [-> Hws]%andb_true_iff. by apply IH.
Qed.

Lemma lstrip_all_space (ws : list ascii) :
  forallb is_space ws = true -> lstrip ws = [].
Proof.
  intros Hws. rewrite <- (app_nil_r ws). by rewrite lstrip_spaces_l.
Qed.

Lemma lstrip_spaces_r (cs ws : list ascii) :
  forallb is_space ws = true ->
  lstrip (cs ++ ws) = lstrip cs ++ ws
  \/ (lstrip cs = [] /\ lstrip (cs ++ ws) = []).
Proof.
  intros Hws. induction cs as [|c cs IH]; simpl.
  - right. split; [done | by apply lstrip_all_space].
  - destruct (is_space c); [exact IH | by left].
Qed.

Lemma strip_surrounded (ws cs ws' : list ascii) :
  forallb is_space ws = true ->
  forallb is_space ws' = true ->
  strip (ws ++ cs ++ ws') = strip cs.
Proof.
  intros Hws Hws'. unfold strip. rewrite lstrip_spaces_l by done.
  destruct (lstrip_spaces_r cs ws' Hws') as [-> | [-> ->]]; [| done].
  rewrite rev_app_distr, lstrip_spaces_l; [done |].
  apply forallb_forall. intros c Hc%in_rev.
  by eapply forallb_forall in Hws'.
Qed.

(** X4: [int] ignores white space around a token, so a configuration
    string may put blanks around its numbers. *)
Theorem int_ignores_surrounding_space (ws t ws' : string) :
  all_space ws = true ->
  all_space ws' = true ->
  int (PyStr (ws +:+ t +:+ ws')) = int (PyStr t).
Proof.
  unfold all_space. intros Hws Hws'. cbn [int]. unfold int_of_chars.
  by rewrite !list_ascii_of_string_app, strip_surrounded.
Qed.

Lemma int_ignores_surrounding_space_witness :
  all_space "  " = true
  /\ all_space " " = true
  /\ int (PyStr ("  " +:+ "-12" +:+ " ")) = int (PyStr "-12").
Proof.
  split; [reflexivity |]. split; [reflexivity |].
  by apply int_ignores_surrounding_space.
Defined.

Lemma int_all_space (t : string) :
  all_space t = true -> int (PyStr t) = Raise ValueError.
Proof.
  unfold all_space. intros Ht. cbn [int]. unfold int_of_chars, strip.
  by rewrite (lstrip_all_space _ Ht).
Qed.

(** X5: a token that is not empty but holds only white space is not
    dropped like an empty one: [int] rejects it and [__parse_str] raises
    [ValueError]. *)
Theorem parse_str_blank_token (s t : string) :
  t ∈ tokens s ->
  t <> EmptyString ->
  all_space t = true ->
  __parse_str (PyStr s) = Raise ValueError.
Proof.
  intros Hin Hne Hblank. apply parse_tokens_raise, Exists_exists.
  exists t. split; [| by apply int_all_space].
  apply list_elem_of_filter. by split.
Qed.

Lemma parse_str_blank_token_witness :
  " "%string ∈ tokens "1, ,2"
  /\ " "%string <> EmptyString
  /\ all_space " " = true
  /\ __parse_str (PyStr "1, ,2") = Raise ValueError.
Proof.
  assert (Hin : " "%string ∈ tokens "1, ,2").
  { apply list_elem_of_In. cbn. tauto. }
  split; [exact Hin |]. split; [discriminate |]. split; [reflexivity |].
  by apply (parse_str_blank_token "1, ,2" " " Hin).
Defined.

End ParseStrMore.

(** ** More on the device block and the loader *)

Section DevicesMore.
Variable configure_device : string -> result obj.

(** X6: the device block raises only for a specifier starting with "gpu",
    and then with the exception of [configure_device] or of the unpacking
    of its value; for every other specifier it returns. *)
Theorem setup_devices_raises (device : string) (e : exn) :
  setup_devices configure_device device = Raise e ->
  startswith "gpu" device = true
  /\ (configure_device device = Raise e
      \/ exists r, configure_device device = Ok r /\ unpack2 r = Raise e).
Proof.
  unfold setup_devices. destruct (startswith "gpu" device).
  - intros Hraise. split; [done |].
    destruct (configure_device device) as [r|e'] eqn:Hr; cbn in Hraise.
    + right. exists r. split; [done |].
      destruct (unpack2 r) as [[x devs]|e'] eqn:Hu; cbn in Hraise;
        [discriminate Hraise | by injection Hraise as ->].
    + left. by injection Hraise as ->.
  - destruct (String.eqb device "tpu"); discriminate.
Qed.

Lemma setup_devices_inv (device : string) (test_kwargs loader_kws : gmap string obj) :
  setup_devices configure_device device = Ok (test_kwargs, loader_kws) ->
  (startswith "gpu" device = true
   /\ exists devs, test_kwargs = {["gpus" := devs]}
                   /\ loader_kws = {["persistent_workers" := PyBool true]})
  \/ (startswith "gpu" device = false /\ device = "tpu"%string
      /\ test_kwargs = {["tpu_cores" := PyInt 8]} /\ loader_kws = ∅)
  \/ (startswith "gpu" device = false /\ device <> "tpu"%string
      /\ test_kwargs = ∅ /\ loader_kws = ∅).
Proof.
  unfold setup_devices. destruct (startswith "gpu" device).
  - destruct (configure_device device) as [r|e]; cbn; [| discriminate].
    destruct (unpack2 r) as [[x devs]|e]; cbn; [| discriminate].
    intros [= <- <-]. left. split; [done |]. by exists devs.
  - destruct (String.eqb_spec device "tpu") as [->|Hne]; cbn; intros [= <- <-].
    + right. left. done.
    + right. right. done.
Qed.

(** X7: whatever the specifier, the device block never asks for GPUs and
    TPU cores together, and it sets [persistent_workers] exactly when it
    asks for GPUs. *)
Theorem setup_devices_exclusive (device : string)
    (test_kwargs loader_kws : gmap string obj) :
  setup_devices configure_device device = Ok (test_kwargs, loader_kws) ->
  ~ (is_Some (test_kwargs !! "gpus") /\ is_Some (test_kwargs !! "tpu_cores"))
  /\ (persistent_workers_kw loader_kws = true <-> is_Some (test_kwargs !! "gpus")).
Proof.
  intros [(_ & devs & -> & ->) | [(_ & _ & -> & ->) | (_ & _ & -> & ->)]]%setup_devices_inv.
  - split.
    + intros [_ [x Hx]]. by rewrite lookup_singleton_ne in Hx.
    + split; [intros _; by rewrite lookup_singleton_eq | done].
  - split.
    + intros [[x Hx] _]. by rewrite lookup_singleton_ne in Hx.
    + split; [done |]. intros [x Hx]. by rewrite lookup_singleton_ne in Hx.
  - split.
    + intros [[x Hx] _]. by rewrite lookup_empty in Hx.
    + split; [done |]. intros [x Hx]. by rewrite lookup_empty in Hx.
Qed.

End DevicesMore.

Lemma setup_devices_raises_witness :
  setup_devices configure_device_spec "gpu:a" = Raise ValueError
  /\ startswith "gpu" "gpu:a" = true
  /\ (configure_device_spec "gpu:a" = Raise ValueError
      \/ exists r, configure_device_spec "gpu:a" = Ok r /\ unpack2 r = Raise ValueError).
Proof.
  split; [reflexivity |].
  exact (setup_devices_raises configure_device_spec "gpu:a" ValueError eq_refl).
Defined.

Lemma setup_devices_exclusive_witness :
  exists test_kwargs loader_kws,
    setup_devices configure_device_spec "gpu:0,1" = Ok (test_kwargs, loader_kws)
    /\ ~ (is_Some (test_kwargs !! "gpus") /\ is_Some (test_kwargs !! "tpu_cores"))
    /\ (persistent_workers_kw loader_kws = true <-> is_Some (test_kwargs !! "gpus")).
Proof.
  eexists _, _. split; [reflexivity |].
  exact (setup_devices_exclusive configure_device_spec "gpu:0,1" _ _ eq_refl).
Defined.

Section LoaderMore.
Context {A : Type}.
Variable perm : list nat.

Lemma val_loader_cases (config : Config) (loader_kws : gmap string obj)
    (dataset : list A) :
  (0 < batch_size config /\ 0 <= workers config
   /\ (persistent_workers_kw loader_kws = true -> 0 < workers config)
   /\ val_loader config loader_kws dataset
      = Ok (mkDataLoader dataset (Z.to_nat (batch_size config)) false false true
              (workers config) (persistent_workers_kw loader_kws)))
  \/ ((batch_size config <= 0 \/ workers config < 0
       \/ (persistent_workers_kw loader_kws = true /\ workers config = 0))
      /\ val_loader config loader_kws dataset = Raise ValueError).
Proof.
  unfold val_loader, new_DataLoader.
  destruct (Z.ltb_spec (workers config) 0); [right; by auto |].
  destruct (persistent_workers_kw loader_kws) eqn:Hp; cbn [andb].
  - destruct (Z.eqb_spec (workers config) 0); [right; by auto |].
    destruct (Z.leb_spec (batch_size config) 0); [right; by auto |].
    left. repeat split; [lia | lia | lia].
  - destruct (Z.leb_spec (batch_size config) 0); [right; by auto |].
    left. repeat split; [lia | lia | discriminate].
Qed.

(** X8: the loader is built exactly when the batch size is positive, the
    number of workers is not negative and, if persistent workers are asked
    for, there is at least one worker; otherwise the constructor raises
    [ValueError]. *)
Theorem val_loader_ok_iff (config : Config) (loader_kws : gmap string obj)
    (dataset : list A) :
  (is_Ok (val_loader config loader_kws dataset)
   <-> 0 < batch_size config /\ 0 <= workers config
       /\ (persistent_workers_kw loader_kws = true -> 0 < workers config))
  /\ (is_Ok (val_loader config loader_kws dataset)
      \/ val_loader config loader_kws dataset = Raise ValueError).
Proof.
  destruct (val_loader_cases config loader_kws dataset)
    as [(HB & Hw & Hp & Hok) | [Hbad Hraise]].
  - split; [| left; by eexists]. split; [done | intros _; by eexists].
  - split; [| by right]. split.
    + intros [dl Hdl]. congruence.
    + intros (HB & Hw & Hp). destruct Hbad as [? | [? | [Hp' ?]]]; [lia | lia |].
      specialize (Hp Hp'). lia.
Qed.

(** X9: with a GPU specifier and [workers = 0] the run stops at the
    construction of the loader: the device block has set
    [persistent_workers], which the loader refuses without workers. *)
Theorem gpu_needs_workers (configure_device : string -> result obj)
    (config : Config) (test_kwargs loader_kws : gmap string obj)
    (dataset : list A) :
  startswith "gpu" (device config) = true ->
  setup_devices configure_device (device config) = Ok (test_kwargs, loader_kws) ->
  workers config = 0 ->
  val_loader config loader_kws dataset = Raise ValueError.
Proof.
  intros Hgpu Hsetup Hw.
  apply setup_devices_inv in Hsetup
    as [(_ & devs & _ & ->) | [(Hno & _) | (Hno & _)]]; [| congruence | congruence].
  destruct (val_loader_cases config {["persistent_workers" := PyBool true]} dataset)
    as [(_ & _ & Hp & _) | [_ Hraise]]; [| done].
  specialize (Hp eq_refl). lia.
Qed.

Lemma val_loader_inv (config : Config) (loader_kws : gmap string obj)
    (dataset : list A) (dl : DataLoader A) :
  val_loader config loader_kws dataset = Ok dl ->
  0 < batch_size config
  /\ dl = mkDataLoader dataset (Z.to_nat (batch_size config)) false false true
            (workers config) (persistent_workers_kw loader_kws).
Proof.
  intros Hdl.
  destruct (val_loader_cases config loader_kws dataset)
    as [(HB & _ & _ & Hok) | [_ Hraise]]; [| congruence].
  split; [done | congruence].
Qed.

Lemma fetch_app (dataset : list A) (b1 b2 : list nat) :
  fetch dataset (b1 ++ b2) = fetch dataset b1 ++ fetch dataset b2.
Proof. apply omap_app. Qed.

Lemma fetch_concat (dataset : list A) (bs : list (list nat)) :
  concat (fetch dataset <$> bs) = fetch dataset (concat bs).
Proof.
  induction bs as [|b bs IH]; [done |].
  cbn [fmap list_fmap concat]. by rewrite fetch_app, <- IH.
Qed.

Lemma fetch_all (dataset : list A) :
  fetch dataset (seq 0 (length dataset)) = dataset.
Proof.
  induction dataset as [|x dataset IH] using rev_ind; [done |].
  assert (Hold : fetch (dataset ++ [x]) (seq 0 (length dataset)) = dataset).
  { transitivity (fetch dataset (seq 0 (length dataset))); [| exact IH].
    unfold fetch. apply list_omap_ext, Forall_Forall2_diag, Forall_seq.
    intros j Hj. rewrite lookup_app_l; [done | lia]. }
  rewrite length_app. cbn [length]. rewrite Nat.add_1_r, seq_S, fetch_app, Hold.
  f_equal. cbn. by rewrite lookup_app_r, Nat.sub_diag.
Qed.

Lemma fetch_length (dataset : list A) (batch : list nat) :
  Forall (fun i => (i < length dataset)%nat) batch ->
  length (fetch dataset batch) = length batch.
Proof.
  induction 1 as [|i batch Hi _ IH]; [done |].
  cbn. destruct (lookup_lt_is_Some_2 dataset i Hi) as [x ->]. cbn.
  by rewrite <- IH.
Qed.

(** X10: one pass over the loader hands out every sample of the paired
    dataset exactly once and in order: the batches put end to end are the
    dataset, and no batch is empty or longer than the batch size. *)
Theorem val_loader_covers_dataset (config : Config) (loader_kws : gmap string obj)
    (dataset : list A) (dl : DataLoader A) :
  val_loader config loader_kws dataset = Ok dl ->
  concat (batches perm dl) = dataset
  /\ Forall (fun batch => (0 < length batch <= Z.to_nat (batch_size config))%nat)
       (batches perm dl).
Proof.
  intros [HB ->]%val_loader_inv.
  assert (HBpos : (0 < Z.to_nat (batch_size config))%nat) by lia.
  unfold batches. rewrite sequential_index_batches. cbn [dl_dataset].
  destruct (batch_sampler_chunks _ HBpos (seq 0 (length dataset)))
    as (Hcat & _ & Hith).
  rewrite length_seq in Hith. split.
  - by rewrite fetch_concat, Hcat, fetch_all.
  - apply Forall_fmap, Forall_lookup. intros i batch Hbatch. cbn.
    rewrite Hith in Hbatch. case_decide as Hi; [| discriminate].
    injection Hbatch as <-. rewrite drop_seq, take_seq, fetch_length.
    + rewrite length_seq. lia.
    + apply Forall_seq. lia.
Qed.

End LoaderMore.

Lemma gpu_needs_workers_witness :
  startswith "gpu" (device gpu_config) = true
  /\ workers gpu_config = 0
  /\ exists test_kwargs loader_kws,
      setup_devices configure_device_spec (device gpu_config)
      = Ok (test_kwargs, loader_kws)
      /\ val_loader gpu_config loader_kws (seq 0 10) = Raise ValueError.
Proof.
  split; [reflexivity |]. split; [reflexivity |].
  eexists _, _. split; [reflexivity |].
  exact (gpu_needs_workers configure_device_spec gpu_config _ _ (seq 0 10)
           eq_refl eq_refl eq_refl).
Defined.

Lemma val_loader_covers_dataset_witness :
  exists dl,
    val_loader example_config ∅ (seq 100 10) = Ok dl
    /\ concat (batches [] dl) = seq 100 10
    /\ Forall (fun batch => (0 < length batch <= 4)%nat) (batches [] dl).
Proof.
  eexists. split; [reflexivity |].
  exact (val_loader_covers_dataset [] example_config ∅ (seq 100 10) _ eq_refl).
Defined.

(** ** More on the noise dataset *)

Section DatasetsMore.
Context {scalar generator : Type}.
Variable normal : generator -> scalar * generator.
Variable manual_seed : Z -> generator.
Variable random_seed : Z.
Variable construct_models : Config -> generator -> generator.

Lemma blocks_concat {X : Type} (k N : nat) (l : list X) :
  length l = (N * k)%nat ->
  concat ((fun i => take k (drop (i * k) l)) <$> seq 0 N) = l.
Proof.
  revert l. induction N as [|N IH]; intros l Hlen.
  - by destruct l.
  - cbn [seq fmap list_fmap concat]. rewrite drop_0.
    transitivity (take k l ++ drop k l); [| apply take_drop]. f_equal.
    etrans; [| apply (IH (drop k l)); rewrite length_drop; lia].
    rewrite <- fmap_S_seq, <- list_fmap_compose.
    f_equal. apply list_fmap_ext. intros _ i _. cbn.
    by rewrite drop_drop.
Qed.

(** X11: the items of the noise dataset cut the drawn numbers into
    consecutive blocks without loss or overlap: put end to end, the data of
    the items are the [n_samples * 3 * image_size * image_size] numbers
    drawn, in the order of the draws. *)
Theorem noise_items_partition (config : Config) (g0 : generator) :
  0 <= n_samples config ->
  0 <= image_size config ->
  exists ds,
    ddpm_latent_dataset normal manual_seed random_seed construct_models config g0 = Ok ds
    /\ concat ((fun item => concat (data <$> item)) <$> ds)
       = noise_stream normal manual_seed random_seed construct_models config
    /\ length (noise_stream normal manual_seed random_seed construct_models config)
       = Z.to_nat (n_samples config * 3 * image_size config * image_size config).
Proof.
  intros HN HS. eexists. split; [by apply ddpm_latent_dataset_ok |].
  assert (Hlen : length (noise_stream normal manual_seed random_seed construct_models config)
                 = (Z.to_nat (n_samples config)
                    * Z.to_nat (3 * image_size config * image_size config))%nat).
  { unfold noise_stream. by rewrite draws_length, numel_latent_size. }
  split; [| rewrite Hlen; nia].
  rewrite <- list_fmap_compose.
  etrans; [| apply (blocks_concat _ _ _ Hlen)].
  f_equal. apply list_fmap_ext. intros _ i _. cbn. rewrite app_nil_r.
  replace (3 * (image_size config * (image_size config * 1)))
    with (3 * image_size config * image_size config) by lia.
  reflexivity.
Qed.

(** X12: the noise dataset is never built for a negative [n_samples] or
    [image_size]: [torch.randn] raises [RuntimeError] then; so a dataset
    that was built has non-negative sizes, and it holds [n_samples]
    items. *)
Theorem ddpm_latent_dataset_nonnegative (config : Config) (g0 : generator) :
  (forall ds,
      ddpm_latent_dataset normal manual_seed random_seed construct_models config g0
      = Ok ds ->
      0 <= n_samples config /\ 0 <= image_size config
      /\ Z.of_nat (length ds) = n_samples config)
  /\ (n_samples config < 0 \/ image_size config < 0 ->
      ddpm_latent_dataset normal manual_seed random_seed construct_models config g0
      = Raise RuntimeError).
Proof.
  split; [| apply ddpm_latent_dataset_negative].
  intros ds [HN [HS ->]]%ddpm_latent_dataset_inv.
  split; [done |]. split; [done |].
  rewrite length_fmap, length_seq. lia.
Qed.

End DatasetsMore.

Lemma noise_items_partition_witness :
  0 <= n_samples example_config
  /\ 0 <= image_size example_config
  /\ exists ds,
      ddpm_latent_dataset counter_normal counter_seed 7 no_construction
        example_config 5%nat = Ok ds
      /\ concat ((fun item => concat (data <$> item)) <$> ds)
         = noise_stream counter_normal counter_seed 7 no_construction example_config
      /\ length (noise_stream counter_normal counter_seed 7 no_construction
                   example_config)
         = Z.to_nat (n_samples example_config * 3 * image_size example_config
                     * image_size example_config).
Proof.
  assert (HN : 0 <= n_samples example_config) by (by vm_compute).
  assert (HS : 0 <= image_size example_config) by (by vm_compute).
  split; [exact HN |]. split; [exact HS |].
  exact (noise_items_partition counter_normal counter_seed 7 no_construction
           example_config 5%nat HN HS).
Defined.

(** ** More on the checkpoint loads *)

Section CheckpointsMore.
Context {scalar : Type}.
Implicit Types checkpoint constructed loaded : gmap string (Tensor scalar).

Lemma dom_restore checkpoint constructed :
  dom (merge restore constructed checkpoint) = dom constructed.
Proof.
  apply set_eq. intros k. rewrite !elem_of_dom, lookup_restore.
  destruct (constructed !! k), (checkpoint !! k); cbn;
    split; intros [? ?]; by eauto.
Qed.

Lemma restore_same_dom checkpoint constructed :
  dom checkpoint = dom constructed ->
  (forall k t t', constructed !! k = Some t -> checkpoint !! k = Some t' ->
                  shape t = shape t') ->
  merge restore constructed checkpoint = checkpoint.
Proof.
  intros Hdom Hshape. apply map_eq. intros k. rewrite lookup_restore.
  destruct (constructed !! k) as [t|] eqn:Hc, (checkpoint !! k) as [t'|] eqn:Hk;
    cbn; try done.
  - f_equal. apply offered_same_shape. by eapply Hshape.
  - assert (k ∈ dom constructed) as Hin by (apply elem_of_dom; by eexists).
    rewrite <- Hdom in Hin. apply elem_of_dom in Hin as [? ?]. congruence.
  - assert (k ∈ dom checkpoint) as Hin by (apply elem_of_dom; by eexists).
    rewrite Hdom in Hin. apply elem_of_dom in Hin as [? ?]. congruence.
Qed.

Lemma keys_agree checkpoint constructed :
  missing_keys constructed checkpoint = ∅
  /\ unexpected_keys constructed checkpoint = ∅
  <-> dom checkpoint = dom constructed.
Proof.
  unfold missing_keys, unexpected_keys. split.
  - intros [Hm Hu]. apply set_eq. intros k. split; intros Hk.
    + destruct (decide (k ∈ dom constructed)) as [|Hno]; [done |].
      assert (k ∈ dom checkpoint ∖ dom constructed) as Hin
        by by apply elem_of_difference.
      rewrite Hu in Hin. by apply not_elem_of_empty in Hin.
    + destruct (decide (k ∈ dom checkpoint)) as [|Hno]; [done |].
      assert (k ∈ dom constructed ∖ dom checkpoint) as Hin
        by by apply elem_of_difference.
      rewrite Hm in Hin. by apply not_elem_of_empty in Hin.
  - intros ->. split; apply set_eq; intros k; rewrite elem_of_difference;
      (split; [by intros [? ?] | by intros ?%not_elem_of_empty]).
Qed.

(** X13: a strict load, as of the VAE, that succeeds has found in the
    snapshot the very keys of the model, and each restored parameter has
    the model's shape and is the snapshot's tensor (its first element, when
    a one-dimensional tensor is offered to a zero-dimensional parameter);
    and a snapshot with the model's keys and shapes is restored as it
    is. *)
Theorem strict_load_exact checkpoint constructed :
  (forall loaded,
      load_vae checkpoint constructed = Ok loaded ->
      dom checkpoint = dom constructed
      /\ dom loaded = dom constructed
      /\ forall k t t', constructed !! k = Some t -> checkpoint !! k = Some t' ->
                        loaded !! k = Some (offered t t')
                        /\ shape (offered t t') = shape t)
  /\ (dom checkpoint = dom constructed ->
      (forall k t t', constructed !! k = Some t -> checkpoint !! k = Some t' ->
                      shape t = shape t') ->
      load_vae checkpoint constructed = Ok checkpoint).
Proof.
  unfold load_vae, load_from_checkpoint, load_state_dict. cbn [andb]. split.
  - intros loaded.
    destruct (decide (index_errors constructed checkpoint = ∅)); [| discriminate].
    destruct (decide (size_mismatches constructed checkpoint = ∅)) as [Hs|];
      [| discriminate].
    case_bool_decide as Hkeys; cbn [negb]; [| discriminate].
    intros [= <-]. split; [by apply keys_agree |].
    split; [apply dom_restore |].
    intros k t t' Ht Ht'. rewrite lookup_restore, Ht, Ht'. split; [done |].
    symmetry. by eapply size_mismatches_empty.
  - intros Hdom Hshape.
    destruct (same_shapes_no_clash constructed checkpoint Hshape) as [Hi Hs].
    rewrite !decide_True by done.
    rewrite bool_decide_eq_true_2 by by apply keys_agree.
    cbn [negb]. by rewrite restore_same_dom.
Qed.

(** X14: loading the same snapshot again into the result of a relaxed
    load changes nothing. *)
Theorem relaxed_load_idempotent checkpoint constructed loaded :
  load_ddpm_wrapper checkpoint constructed = Ok loaded ->
  load_ddpm_wrapper checkpoint loaded = Ok loaded.
Proof.
  unfold load_ddpm_wrapper, load_from_checkpoint, load_state_dict. cbn [andb].
  destruct (decide (index_errors constructed checkpoint = ∅)) as [Hi|];
    [| discriminate].
  destruct (decide (size_mismatches constructed checkpoint = ∅)) as [Hs|];
    [| discriminate].
  intros [= <-].
  assert (Hkeep : forall k t1 t', merge restore constructed checkpoint !! k = Some t1 ->
                    checkpoint !! k = Some t' ->
                    exists t, constructed !! k = Some t /\ t1 = offered t t'
                              /\ shape t1 = shape t).
  { intros k t1 t' H1 H'. rewrite lookup_restore, H' in H1.
    destruct (constructed !! k) as [t|] eqn:Ht; [| discriminate].
    injection H1 as <-. exists t. split; [done |]. split; [done |].
    symmetry. by eapply size_mismatches_empty. }
  rewrite !decide_True.
  - f_equal. apply map_eq. intros k. rewrite (lookup_restore _ checkpoint k).
    destruct (merge restore constructed checkpoint !! k) as [t1|] eqn:H1;
      destruct (checkpoint !! k) as [t'|] eqn:H'; cbn; try done.
    destruct (Hkeep k t1 t' H1 H') as (t & _ & -> & Hshape).
    f_equal. by apply offered_own_shape.
  - apply size_mismatches_empty. intros k t1 t' H1 H'.
    destruct (Hkeep k t1 t' H1 H') as (t & _ & -> & Hshape).
    by rewrite (offered_own_shape _ _ _ Hshape).
  - apply index_errors_empty. intros k t1 t' n H1 H' Hs1 Hs'.
    destruct (Hkeep k t1 t' H1 H') as (t & Ht & _ & Hshape).
    eapply (proj1 (index_errors_empty _ _) Hi); [exact Ht | exact H' | | exact Hs'].
    congruence.
Qed.

Lemma merge_unexpected {X : Type} (f : option (Tensor scalar) -> option (Tensor scalar) -> option X)
    checkpoint constructed (k : string) (t : Tensor scalar) :
  (forall y, f None y = None) ->
  constructed !! k = None ->
  merge f constructed (<[k := t]> checkpoint) = merge f constructed checkpoint.
Proof.
  intros Hf Hk. apply map_eq. intros j. rewrite !lookup_merge.
  destruct (decide (j = k)) as [->|Hne].
  - rewrite Hk, lookup_insert_eq. cbn. rewrite Hf.
    destruct (checkpoint !! k); cbn; by rewrite ?Hf.
  - by rewrite lookup_insert_ne.
Qed.

(** X15: a snapshot entry under a key the model does not have is ignored
    by the relaxed load of the wrapper and fatal for the strict load of
    the VAE, which raises [RuntimeError] (unless an empty one-dimensional
    tensor offered to a zero-dimensional parameter has raised [IndexError]
    before the keys are compared). *)
Theorem unexpected_key checkpoint constructed (k : string) (t : Tensor scalar) :
  k ∉ dom constructed ->
  load_ddpm_wrapper (<[k := t]> checkpoint) constructed
  = load_ddpm_wrapper checkpoint constructed
  /\ load_vae (<[k := t]> checkpoint) constructed
     = Raise (if decide (index_errors constructed checkpoint = ∅)
              then RuntimeError else IndexError).
Proof.
  intros Hk%not_elem_of_dom.
  unfold load_ddpm_wrapper, load_vae, load_from_checkpoint, load_state_dict.
  unfold index_errors, size_mismatches.
  rewrite !(merge_unexpected _ checkpoint constructed k t) by done.
  split; [done |]. cbn [andb].
  destruct (decide (dom (merge index_clash constructed checkpoint) = ∅)); [| done].
  destruct (decide (dom (merge shape_clash constructed checkpoint) = ∅)); [| done].
  rewrite bool_decide_eq_false_2; [done |].
  intros [_ Hunexpected].
  assert (k ∈ unexpected_keys constructed (<[k := t]> checkpoint)) as Hin.
  { unfold unexpected_keys. apply elem_of_difference. split.
    - apply elem_of_dom. rewrite lookup_insert_eq. by eexists.
    - by apply not_elem_of_dom. }
  rewrite Hunexpected in Hin. by apply not_elem_of_empty in Hin.
Qed.

End CheckpointsMore.

Lemma relaxed_load_idempotent_witness :
  exists loaded,
    load_ddpm_wrapper snapshot_without_online wrapper_constructed = Ok loaded
    /\ load_ddpm_wrapper snapshot_without_online loaded = Ok loaded.
Proof.
  eexists. split; [reflexivity |].
  exact (relaxed_load_idempotent snapshot_without_online wrapper_constructed _ eq_refl).
Defined.

Lemma unexpected_key_witness :
  ("ema.shadow"%string ∉ dom wrapper_constructed)
  /\ load_ddpm_wrapper (<["ema.shadow"%string := stray_tensor]> full_snapshot)
       wrapper_constructed
     = load_ddpm_wrapper full_snapshot wrapper_constructed
  /\ load_vae (<["ema.shadow"%string := stray_tensor]> full_snapshot)
       wrapper_constructed
     = Raise RuntimeError.
Proof.
  assert (Hk : "ema.shadow"%string ∉ dom wrapper_constructed).
  { apply not_elem_of_dom. reflexivity. }
  split; [exact Hk |].
  destruct (unexpected_key full_snapshot wrapper_constructed "ema.shadow"
              stray_tensor Hk) as [Hrelaxed Hstrict].
  split; [exact Hrelaxed | exact Hstrict].
Defined.

(** ** More on the EMA decoder *)

Section DeepCopyMore.
Context {scalar : Type}.
Implicit Types h : gmap loc (cell scalar).
Implicit Types memo : gmap loc loc.
Implicit Types params : list (string * loc).

(** The memo table stays injective, its images staying inside the heap. *)
Lemma deepcopy_params_inj params :
  forall memo h params' memo' h',
    deepcopy_params params memo h = Ok (params', memo', h') ->
    (forall l l', memo !! l = Some l' -> l' ∈ dom h) ->
    (forall l1 l2 l', memo !! l1 = Some l' -> memo !! l2 = Some l' -> l1 = l2) ->
    (forall l l', memo' !! l = Some l' -> l' ∈ dom h')
    /\ (forall l1 l2 l', memo' !! l1 = Some l' -> memo' !! l2 = Some l' -> l1 = l2).
Proof.
  induction params as [|[name l] params IH]; intros memo h params' memo' h'.
  { cbn. intros [= <- <- <-]. done. }
  cbn [deepcopy_params]. destruct (memo !! l) as [k|] eqn:Hl.
  - destruct (deepcopy_params params memo h) as [[[r m] hh]|e] eqn:Hrest;
      cbn; [| discriminate].
    intros [= <- <- <-]. by apply (IH _ _ _ _ _ Hrest).
  - destruct (h !! l) as [c|] eqn:Hc; [| discriminate].
    destruct (deepcopy_params params _ _) as [[[r m] hh]|e] eqn:Hrest;
      cbn; [| discriminate].
    intros [= <- <- <-] Himg Hinj.
    assert (Hfresh : fresh (dom h) ∉ dom h) by apply is_fresh.
    apply (IH _ _ _ _ _ Hrest).
    + intros j j' Hj. apply elem_of_dom.
      destruct (decide (j = l)) as [->|Hne].
      * rewrite lookup_insert_eq in Hj. injection Hj as <-.
        rewrite lookup_insert_eq. by eexists.
      * rewrite lookup_insert_ne in Hj by done.
        pose proof (Himg j j' Hj) as Hin.
        rewrite lookup_insert_ne by (intros <-; contradiction).
        by apply elem_of_dom.
    + intros l1 l2 l' H1 H2.
      destruct (decide (l1 = l)) as [->|Hne1], (decide (l2 = l)) as [->|Hne2];
        [done | | |].
      * rewrite lookup_insert_eq in H1. rewrite lookup_insert_ne in H2 by done.
        injection H1 as <-. destruct Hfresh. by eapply Himg.
      * rewrite lookup_insert_eq in H2. rewrite lookup_insert_ne in H1 by done.
        injection H2 as <-. destruct Hfresh. by eapply Himg.
      * rewrite lookup_insert_ne in H1, H2 by done. by eapply Hinj.
Qed.

Lemma copied_names params params' memo :
  Forall2 (fun p p' => p.1 = p'.1 /\ memo !! p.2 = Some p'.2) params params' ->
  params'.*1 = params.*1.
Proof.
  induction 1 as [|p p' params params' [Hname _] _ IH]; [done |].
  cbn. by rewrite Hname, IH.
Qed.

(** What [make_ema_decoder] returns, with what the copy of the parameter
    list guarantees. *)
Lemma make_ema_decoder_inv h (decoder : loc) (training : bool) params :
  h !! decoder = Some (ModuleCell training params) ->
  (forall name l, (name, l) ∈ params -> exists t, h !! l = Some (TensorCell t)) ->
  exists params' memo' h1,
    let ema := fresh (dom h1) in
    make_ema_decoder decoder h
    = Ok (ema, <[ema := ModuleCell false params']>
                 (<[decoder := ModuleCell false params]>
                    (<[ema := ModuleCell training params']> h1)))
    /\ h ⊆ h1
    /\ (ema ∉ dom h1)
    /\ ema <> decoder
    /\ (forall l l', memo' !! l = Some l' ->
                     (l' ∉ dom h) /\ (l' ∈ dom h1) /\ h1 !! l' = h !! l)
    /\ (forall l1 l2 l', memo' !! l1 = Some l' -> memo' !! l2 = Some l' -> l1 = l2)
    /\ Forall2 (fun p p' => p.1 = p'.1 /\ memo' !! p.2 = Some p'.2) params params'.
Proof.
  intros Hdec Hwf.
  destruct (deepcopy_params_spec h params ∅ h)
    as (params' & memo' & h1 & Hcopy & Hsub & _ & Hmemo & Hall).
  { intros name l Hl. destruct (Hwf name l Hl) as [t Ht]. by eexists. }
  { done. }
  { intros l l' Hl. by rewrite lookup_empty in Hl. }
  destruct (deepcopy_params_inj params ∅ h params' memo' h1 Hcopy) as [_ Hinj].
  { intros l l' Hl. by rewrite lookup_empty in Hl. }
  { intros l1 l2 l' Hl. by rewrite lookup_empty in Hl. }
  exists params', memo', h1. cbn zeta.
  assert (Hema1 : fresh (dom h1) ∉ dom h1) by apply is_fresh.
  assert (Hne : fresh (dom h1) <> decoder).
  { intros Heq. apply Hema1. rewrite Heq. apply elem_of_dom.
    exists (ModuleCell training params). by eapply lookup_weaken. }
  split; [| split; [exact Hsub | split; [exact Hema1 | split; [exact Hne |
    split; [exact Hmemo | split; [exact Hinj | exact Hall]]]]]].
  unfold make_ema_decoder, deepcopy. rewrite Hdec, Hcopy. cbn.
  unfold eval. rewrite lookup_insert_ne by done.
  rewrite (lookup_weaken _ _ _ _ Hdec Hsub). cbn.
  rewrite lookup_insert_ne by done. by rewrite lookup_insert_eq.
Qed.

(** X16: after [make_ema_decoder] both decoders are in evaluation mode,
    whatever mode the decoder was built in; the EMA decoder is a new
    object with the decoder's parameter names in the decoder's order; and
    every other object of the heap is as it was. *)
Theorem make_ema_decoder_frame h (decoder : loc) (training : bool) params :
  h !! decoder = Some (ModuleCell training params) ->
  (forall name l, (name, l) ∈ params -> exists t, h !! l = Some (TensorCell t)) ->
  exists ema_decoder h' params',
    make_ema_decoder decoder h = Ok (ema_decoder, h')
    /\ (ema_decoder ∉ dom h)
    /\ h' !! decoder = Some (ModuleCell false params)
    /\ h' !! ema_decoder = Some (ModuleCell false params')
    /\ params'.*1 = params.*1
    /\ (forall l, l ∈ dom h -> l <> decoder -> h' !! l = h !! l).
Proof.
  intros Hdec Hwf.
  destruct (make_ema_decoder_inv h decoder training params Hdec Hwf)
    as (params' & memo' & h1 & Hrun & Hsub & Hema & Hne & _ & _ & Hall).
  cbn zeta in *. set (ema := fresh (dom h1)) in *.
  assert (Hema0 : ema ∉ dom h).
  { intros Hin. apply Hema. eapply subseteq_dom; [exact Hsub | exact Hin]. }
  eexists ema, _, params'. split; [exact Hrun |]. split; [exact Hema0 |].
  split; [| split; [| split]].
  - rewrite lookup_insert_ne by done. by rewrite lookup_insert_eq.
  - by rewrite lookup_insert_eq.
  - by eapply copied_names.
  - intros l [c Hc]%elem_of_dom Hld.
    assert (l <> ema) as Hle.
    { intros ->. apply Hema0, elem_of_dom. by eexists. }
    rewrite !lookup_insert_ne by done. rewrite Hc. by eapply lookup_weaken.
Qed.

(** X17: the copy keeps the sharing of tensors between parameter names: a
    write to a parameter of the EMA decoder is seen through another of its
    names exactly when the two names share one tensor in the decoder. *)
Theorem ema_decoder_keeps_sharing h (decoder : loc) (training : bool) params :
  h !! decoder = Some (ModuleCell training params) ->
  (forall name l, (name, l) ∈ params -> exists t, h !! l = Some (TensorCell t)) ->
  exists ema_decoder h',
    make_ema_decoder decoder h = Ok (ema_decoder, h')
    /\ forall name1 name2 l1 l2 v,
        param_loc params name1 = Some l1 ->
        param_loc params name2 = Some l2 ->
        param_value (set_param h' ema_decoder name1 v) ema_decoder name2
        = if decide (l1 = l2) then Some v else param_value h' ema_decoder name2.
Proof.
  intros Hdec Hwf.
  destruct (make_ema_decoder_inv h decoder training params Hdec Hwf)
    as (params' & memo' & h1 & Hrun & Hsub & Hema & Hne & Hmemo & Hinj & Hall).
  cbn zeta in *. set (ema := fresh (dom h1)) in *.
  eexists ema, _. split; [exact Hrun |].
  set (h' := <[ema := ModuleCell false params']> _).
  assert (He : h' !! ema = Some (ModuleCell false params'))
    by apply lookup_insert_eq.
  intros name1 name2 l1 l2 v H1 H2.
  pose proof (param_loc_copy memo' params params' name1 Hall) as Hc1.
  pose proof (param_loc_copy memo' params params' name2 Hall) as Hc2.
  rewrite H1 in Hc1. rewrite H2 in Hc2.
  destruct Hc1 as (l1' & Hl1' & Hm1), Hc2 as (l2' & Hl2' & Hm2).
  assert (l1' <> ema) as Hle.
  { intros ->. by destruct (Hmemo _ _ Hm1) as (_ & ? & _). }
  unfold set_param, param_value. rewrite He, Hl1'.
  rewrite lookup_insert_ne by done. rewrite He, Hl2'.
  destruct (decide (l1 = l2)) as [->|Hdiff].
  - assert (l1' = l2') as -> by congruence. by rewrite lookup_insert_eq.
  - rewrite lookup_insert_ne; [done |].
    intros ->. apply Hdiff. by eapply Hinj.
Qed.

End DeepCopyMore.

Lemma make_ema_decoder_frame_witness :
  exists ema_decoder h' params',
    make_ema_decoder 3%positive decoder_heap = Ok (ema_decoder, h')
    /\ (ema_decoder ∉ dom decoder_heap)
    /\ h' !! 3%positive
       = Some (ModuleCell false
                 [("weight"%string, 1%positive); ("bias"%string, 2%positive);
                  ("tied"%string, 1%positive)])
    /\ h' !! ema_decoder = Some (ModuleCell false params')
    /\ params'.*1 = ["weight"; "bias"; "tied"]%string
    /\ (forall l, l ∈ dom decoder_heap -> l <> 3%positive ->
                  h' !! l = decoder_heap !! l).
Proof.
  apply (make_ema_decoder_frame decoder_heap 3%positive true
           [("weight"%string, 1%positive); ("bias"%string, 2%positive);
            ("tied"%string, 1%positive)]).
  - reflexivity.
  - intros name l Hin.
    repeat (apply elem_of_cons in Hin as [[= -> ->]|Hin]; [eexists; reflexivity |]).
    by apply elem_of_nil in Hin.
Defined.

Lemma ema_decoder_keeps_sharing_witness :
  exists ema_decoder h',
    make_ema_decoder 3%positive decoder_heap = Ok (ema_decoder, h')
    /\ param_value (set_param h' ema_decoder "weight" (mkTensor [2] [8; 9]))
         ema_decoder "tied"
       = Some (mkTensor [2] [8; 9])
    /\ param_value (set_param h' ema_decoder "weight" (mkTensor [2] [8; 9]))
         ema_decoder "bias"
       = param_value h' ema_decoder "bias".
Proof.
  destruct (ema_decoder_keeps_sharing decoder_heap 3%positive true
              [("weight"%string, 1%positive); ("bias"%string, 2%positive);
               ("tied"%string, 1%positive)])
    as (ema & h' & Hrun & Hshare).
  - reflexivity.
  - intros name l Hin.
    repeat (apply elem_of_cons in Hin as [[= -> ->]|Hin]; [eexists; reflexivity |]).
    by apply elem_of_nil in Hin.
  - exists ema, h'. split; [exact Hrun |]. split.
    + exact (Hshare "weight"%string "tied"%string 1%positive 1%positive _
               eq_refl eq_refl).
    + exact (Hshare "weight"%string "bias"%string 1%positive 2%positive _
               eq_refl eq_refl).
Defined.

(** ** When the run goes through *)

Section RunMore.
Context {scalar generator image out : Type}.
Variable normal : generator -> scalar * generator.
Variable manual_seed : Z -> generator.
Variable random_seed : Z.
Variable construct_models : Config -> generator -> generator.
Variable configure_device : string -> result obj.
Variable perm : list nat.
Variable predict_step :
  gmap string (Tensor scalar) -> list (image * list (Tensor scalar)) -> nat -> list out.

Lemma pred_dataset_ok_nonneg (config : Config) (images : list image) (g0 : generator) :
  is_Ok (pred_dataset normal manual_seed random_seed construct_models config images g0)
  -> 0 <= n_samples config /\ 0 <= image_size config.
Proof.
  unfold pred_dataset. intros [ds Hds].
  destruct (Z.le_gt_cases 0 (n_samples config)) as [HN|HN];
    [| rewrite ddpm_latent_dataset_negative in Hds by lia; discriminate].
  destruct (Z.le_gt_cases 0 (image_size config)) as [HS|HS];
    [done | rewrite ddpm_latent_dataset_negative in Hds by lia; discriminate].
Qed.

(** X18: the run reaches the end of [trainer.predict] only when both
    checkpoints load, the two configuration strings parse, [n_samples] and
    [image_size] are not negative, the device block returns, the batch size
    is positive, the number of workers is not negative and, for a GPU
    specifier, positive: each of these is needed, whatever else the
    trainer and the collaborators require. *)
Theorem generate_recons_ok_only_if (config : Config)
    (vae_checkpoint vae_constructed ddpm_checkpoint wrapper_constructed :
       gmap string (Tensor scalar))
    (images : list image) (g0 : generator) :
  is_Ok (generate_recons normal manual_seed random_seed construct_models
           configure_device perm predict_step config vae_checkpoint
           vae_constructed ddpm_checkpoint wrapper_constructed images g0) ->
  is_Ok (load_vae vae_checkpoint vae_constructed)
  /\ is_Ok (decoder_args config)
  /\ is_Ok (load_ddpm_wrapper ddpm_checkpoint wrapper_constructed)
  /\ 0 <= n_samples config
  /\ 0 <= image_size config
  /\ is_Ok (setup_devices configure_device (device config))
  /\ 0 < batch_size config
  /\ 0 <= workers config
  /\ (startswith "gpu" (device config) = true -> 0 < workers config).
Proof.
  unfold generate_recons.
  destruct (load_vae vae_checkpoint vae_constructed) as [vae|e];
    [| intros [? [=]]].
  destruct (decoder_args config) as [args|e]; [| intros [? [=]]].
  destruct (load_ddpm_wrapper ddpm_checkpoint wrapper_constructed) as [wrapper|e];
    [| intros [? [=]]].
  cbn -[pred_dataset setup_devices val_loader predict batches].
  pose proof (pred_dataset_ok_nonneg config images g0) as Hds.
  destruct (pred_dataset normal manual_seed random_seed construct_models config
              images g0)
    as [dataset|e]; cbn -[setup_devices val_loader predict batches];
    [| intros [? [=]]].
  destruct (Hds ltac:(by eexists)) as [HN HS].
  destruct (setup_devices configure_device (device config))
    as [[test_kwargs loader_kws]|e] eqn:Hsetup;
    cbn -[val_loader predict batches]; [| intros [? [=]]].
  assert (Hp : persistent_workers_kw loader_kws = true
               <-> startswith "gpu" (device config) = true).
  { apply setup_devices_inv in Hsetup
      as [(-> & devs & _ & ->) | [(-> & _ & _ & ->) | (-> & _ & _ & ->)]]; done. }
  destruct (val_loader_cases config loader_kws dataset)
    as [(HB & Hw & Hpw & ->) | [Hbad ->]]; cbn -[predict batches];
    [| intros [? [=]]].
  intros _.
  do 3 (split; [by eexists |]). do 2 (split; [done |]).
  split; [by eexists |]. do 2 (split; [done |]).
  intros Hgpu. by apply Hpw, Hp.
Qed.

End RunMore.

Lemma parse_str_raises_iff_witness :
  __parse_str (PyStr "1,a") = Raise ValueError
  /\ Exists (fun t => int (PyStr t) = Raise ValueError) (nonempty_tokens "1,a").
Proof.
  split; [reflexivity |].
  exact (proj1 (proj1 (parse_str_raises_iff "1,a")) eq_refl).
Defined.

Lemma ddpm_latent_dataset_nonnegative_witness :
  n_samples negative_config < 0
  /\ ddpm_latent_dataset counter_normal counter_seed 7 no_construction
       negative_config 5%nat = Raise RuntimeError.
Proof.
  assert (HN : n_samples negative_config < 0) by (by vm_compute).
  split; [exact HN |].
  exact (proj2 (ddpm_latent_dataset_nonnegative counter_normal counter_seed 7
                  no_construction negative_config 5%nat) (or_introl HN)).
Defined.

Lemma val_loader_ok_iff_witness :
  0 < batch_size example_config
  /\ 0 <= workers example_config
  /\ is_Ok (val_loader example_config ∅ (seq 0 10)).
Proof.
  assert (HB : 0 < batch_size example_config) by (by vm_compute).
  assert (Hw : 0 <= workers example_config) by (by vm_compute).
  split; [exact HB |]. split; [exact Hw |].
  apply (proj1 (val_loader_ok_iff example_config ∅ (seq 0 10))).
  split; [exact HB |]. split; [exact Hw | discriminate].
Defined.

Lemma strict_load_exact_witness :
  dom vae_snapshot = dom vae_constructed
  /\ (forall k t t', vae_constructed !! k = Some t -> vae_snapshot !! k = Some t' ->
                     shape t = shape t')
  /\ load_vae vae_snapshot vae_constructed = Ok vae_snapshot.
Proof.
  assert (Hdom : dom vae_snapshot = dom vae_constructed) by reflexivity.
  assert (Hshape : forall k t t', vae_constructed !! k = Some t ->
                     vae_snapshot !! k = Some t' -> shape t = shape t').
  { intros k t t' Hc Hs. unfold vae_snapshot in Hs. unfold vae_constructed in Hc.
    apply lookup_singleton_Some in Hs as [<- <-].
    apply lookup_singleton_Some in Hc as [_ <-]. reflexivity. }
  split; [exact Hdom |]. split; [exact Hshape |].
  exact (proj2 (strict_load_exact vae_snapshot vae_constructed) Hdom Hshape).
Defined.

Lemma generate_recons_ok_only_if_witness :
  is_Ok (generate_recons counter_normal counter_seed 7 no_construction
           configure_device_spec [] echo_step example_config ∅ ∅ ∅ ∅
           (seq 100 12) 5%nat)
  /\ 0 <= n_samples example_config
  /\ 0 < batch_size example_config
  /\ 0 <= workers example_config.
Proof.
  assert (Hrun : is_Ok (generate_recons counter_normal counter_seed 7
                          no_construction configure_device_spec [] echo_step
                          example_config ∅ ∅ ∅ ∅ (seq 100 12) 5%nat)).
  { eexists. vm_compute. reflexivity. }
  split; [exact Hrun |].
  destruct (generate_recons_ok_only_if counter_normal counter_seed 7 no_construction
              configure_device_spec [] echo_step example_config ∅ ∅ ∅ ∅
              (seq 100 12) 5%nat Hrun)
    as (_ & _ & _ & HN & _ & _ & HB & Hw & _).
  split; [exact HN |]. split; [exact HB | exact Hw].
Defined.
